(** * Template-editor AI agent: tool executors and approval loop

    A shallow embedding of
    - [site/src/pages/TemplateVersionEditorPage/ai/tools.ts]
      ([executeEditFile], [executeDeleteFile], the [readFile] tool), and
    - the [useTemplateAgent] hook (multi-approval-queue variant):
      [getPendingToolCalls], [runStream], [send], [approve], [reject],
      [stop], [reset].

    JavaScript strings are modelled by [string]; one character stands for
    one code unit (restricted to the range 0..255).  The React hook is
    modelled by an explicit record of its state cells and refs; every
    callback is a function on that record, invoked from the latest render
    (React re-renders between two discrete UI events, so a callback never
    sees a stale [status] or [pendingApprovals]). *)

From Stdlib Require Import Ascii String DecimalString.
From stdpp Require Import base option list strings gmap.

Local Open Scope string_scope.
Local Open Scope list_scope.

(** ** JavaScript values and string built-ins *)

(** Values of type [unknown]: what a tool call may carry as arguments and
    what a tool may return.  Arrays are objects too ([typeof [] === "object"]). *)
Inductive JsValue : Type :=
  | JUndefined
  | JNull
  | JBool (b : bool)
  | JNum (n : Z)
  | JStr (s : string)
  | JArr (items : list JsValue)
  | JObj (fields : list (string * JsValue)).

(** [typeof value === "object" && value !== null] *)
Definition isRecord (value : JsValue) : bool :=
  match value with
  | JArr _ | JObj _ => true
  | _ => false
  end.

(** [typeof value === "string"] *)
Definition isString (value : JsValue) : bool :=
  match value with
  | JStr _ => true
  | _ => false
  end.

Fixpoint assoc (key : string) (fields : list (string * JsValue)) : JsValue :=
  match fields with
  | [] => JUndefined
  | (k, v) :: rest => if String.eqb k key then v else assoc key rest
  end.

(** Property read [record.key] on a value that passed [isRecord]; a key
    that is not present reads as [undefined]. *)
Definition getProp (record : JsValue) (key : string) : JsValue :=
  match record with
  | JObj fields => assoc key fields
  | _ => JUndefined
  end.

(** [value ?? fallback] *)
Definition nullish (value fallback : JsValue) : JsValue :=
  match value with
  | JUndefined | JNull => fallback
  | _ => value
  end.

Definition strlen (s : string) : nat := String.length s.

(** White space and line terminators among the code units below 256. *)
Definition isWhiteSpace (c : ascii) : bool :=
  let n := nat_of_ascii c in
  (Nat.eqb n 9 || Nat.eqb n 10 || Nat.eqb n 11 || Nat.eqb n 12
   || Nat.eqb n 13 || Nat.eqb n 32 || Nat.eqb n 160)%bool.

Fixpoint trimStart (s : string) : string :=
  match s with
  | String c rest => if isWhiteSpace c then trimStart rest else s
  | EmptyString => EmptyString
  end.

Fixpoint trimEnd (s : string) : string :=
  match s with
  | EmptyString => EmptyString
  | String c rest =>
      match trimEnd rest with
      | EmptyString => if isWhiteSpace c then EmptyString else String c EmptyString
      | kept => String c kept
      end
  end.

(** [String.prototype.trim] *)
Definition trim (s : string) : string := trimEnd (trimStart s).

(** [StringIndexOf(s, pat, 0)]: the least position where [pat] occurs. *)
Fixpoint indexOf (s pat : string) : option nat :=
  if String.prefix pat s then Some 0
  else match s with
       | EmptyString => None
       | String _ rest => S <$> indexOf rest pat
       end.

(** [String.prototype.split] with a non-empty separator: the pieces between
    successive matches, each search starting where the previous match
    ended.  [skip] counts the code units of the current match that remain
    to be stepped over. *)
Fixpoint split_go (sep : string) (skip : nat) (piece s : string) : list string :=
  match s with
  | EmptyString => [piece]
  | String c rest =>
      match skip with
      | S k => split_go sep k piece rest
      | O =>
          if String.prefix sep s
          then piece :: split_go sep (strlen sep - 1) "" rest
          else split_go sep 0 (piece +:+ String c "") rest
      end
  end.

(** [s.split(sep)]; an empty separator splits between all code units. *)
Definition split (s sep : string) : list string :=
  match sep with
  | EmptyString => (fun c => String c "") <$> list_ascii_of_string s
  | _ => split_go sep 0 "" s
  end.

(** GetSubstitution for a string pattern (no captures): in the replacement
    template [$$] yields a dollar sign, [$&] the matched text, [$`] the
    text before the match and [$'] the text after it; everything else is
    copied. *)
Fixpoint getSubstitution (matched preceding following template : string) : string :=
  match template with
  | EmptyString => EmptyString
  | String "$" (String "$" rest) =>
      "$" +:+ getSubstitution matched preceding following rest
  | String "$" (String "&" rest) =>
      matched +:+ getSubstitution matched preceding following rest
  | String "$" (String "`" rest) =>
      preceding +:+ getSubstitution matched preceding following rest
  | String "$" (String "'" rest) =>
      following +:+ getSubstitution matched preceding following rest
  | String c rest => String c (getSubstitution matched preceding following rest)
  end.

(** [s.replace(pat, replacement)] with a string pattern: only the first
    occurrence is replaced, by the expansion of the replacement template. *)
Definition replace (s pat replacement : string) : string :=
  match indexOf s pat with
  | None => s
  | Some pos =>
      let preceding := substring 0 pos s in
      let following := substring (pos + strlen pat) (strlen s - (pos + strlen pat)) s in
      preceding +:+ getSubstitution pat preceding following replacement +:+ following
  end.

(** Decimal rendering of a number inside a template literal. *)
Definition numberToString (n : nat) : string :=
  NilZero.string_of_uint (Nat.to_uint n).

(** ** The file-tree collaborator *)

(** Outcome of a call that may throw. *)
Inductive Completion (A : Type) : Type :=
  | Normal (value : A)
  | Throw (message : string).
Arguments Normal {A} value.
Arguments Throw {A} message.

(** Modelled from the spec: [utils/filetree] ([existsFile], [getFileText],
    [createFile], [updateFile], [removeFile]) is imported by tools.ts but
    is not among the sources.  The spec describes it as an external
    key-value-like store with [exists(path)], [readText(path)] (which
    fails with a "not a file" condition for directories) and
    [create/update/remove(path, ...)] returning an updated snapshot. *)
Class FileTreeOps (FileTree : Type) : Type := {
  existsFile : string -> FileTree -> bool;
  getFileText : string -> FileTree -> Completion string;
  createFile : string -> FileTree -> string -> FileTree;
  updateFile : string -> string -> FileTree -> FileTree;
  removeFile : string -> FileTree -> FileTree
}.

(** Modelled from the spec: the behaviour of the store that the round trip
    through [createFile] relies on; a created path exists and reads back
    the content it was created with. *)
Class FileTreeLaws (FileTree : Type) `{FileTreeOps FileTree} : Prop := {
  existsFile_createFile : forall path tree content,
    existsFile path (createFile path tree content) = true;
  getFileText_createFile : forall path tree content,
    getFileText path (createFile path tree content) = Normal content
}.

(** Modelled from the spec: a concrete key-value store, used to run the
    executors on examples.  A path is bound to a file with its text or to a
    directory. *)
Inductive Entry : Type :=
  | File (content : string)
  | Directory.

Definition MapTree : Type := gmap string Entry.

#[export] Instance MapTree_ops : FileTreeOps MapTree := {|
  existsFile path tree := bool_decide (is_Some ((tree : gmap string Entry) !! path));
  getFileText path tree :=
    match (tree : gmap string Entry) !! path with
    | Some (File content) => Normal content
    | _ => Throw "File is not a text file"
    end;
  createFile path tree content := <[path := File content]> (tree : gmap string Entry);
  updateFile path content tree := <[path := File content]> (tree : gmap string Entry);
  removeFile path tree := delete path (tree : gmap string Entry)
|}.

(** ** Tool executors (tools.ts) *)

(** The object a mutating tool reports:
    [{ success: boolean; action?: string; error?: string; path: string }]. *)
Record ToolResult : Type := {
  success : bool;
  action : option string;
  error : option string;
  path : string
}.

Record EditArgs : Type := {
  edit_path : string;
  oldContent : string;
  newContent : string
}.

Section Tools.
Context {FileTree : Type} `{FileTreeOps FileTree}.

(** A tool body: it reads and replaces the editor's tree through
    [getFileTree]/[setFileTree] and either returns or throws. *)
Definition Tool (A : Type) : Type := FileTree -> Completion A * FileTree.

Definition ret {A} (a : A) : Tool A := fun tree => (Normal a, tree).

Definition bind {A B} (m : Tool A) (k : A -> Tool B) : Tool B :=
  fun tree =>
    match m tree with
    | (Normal a, tree') => k a tree'
    | (Throw e, tree') => (Throw e, tree')
    end.

(** A call of a function that may throw. *)
Definition call {A} (c : Completion A) : Tool A := fun tree => (c, tree).

(** [getFileTree()] *)
Definition getFileTree : Tool FileTree := fun tree => (Normal tree, tree).

(** [setFileTree(updater)]: the updater is applied to the stored tree. *)
Definition setFileTree (updater : FileTree -> FileTree) : Tool unit :=
  fun tree => (Normal tt, updater tree).

(** [let x; try { x = body } catch { return handler }  rest(x)] *)
Definition try_or_return {A B} (body : Tool A) (handler : Tool B)
    (rest : A -> Tool B) : Tool B :=
  fun tree =>
    match body tree with
    | (Normal a, tree') => rest a tree'
    | (Throw _, tree') => handler tree'
    end.

#[local] Instance Tool_ret : MRet Tool := @ret.
#[local] Instance Tool_bind : MBind Tool := fun A B k m => bind m k.

(** tools.ts, [executeEditFile]. *)
Definition executeEditFile (args : EditArgs) : Tool ToolResult :=
  let path := edit_path args in
  let oldContent := oldContent args in
  let newContent := newContent args in
  tree ← getFileTree;
  let exists_ := existsFile path tree in
  (* Create new file. *)
  if (negb exists_ && String.eqb oldContent "")%bool then
    setFileTree (fun prev => createFile path prev newContent) ;;
    ret {| success := true; action := Some "created"; error := None; path := path |}
  else
  (* Cannot replace content in a file that doesn't exist. *)
  if negb exists_ then
    ret {| success := false; action := None;
           error := Some ("File not found: " +:+ path +:+ ". Use listFiles first.");
           path := path |}
  else
  try_or_return (call (getFileText path tree))
    (ret {| success := false; action := None;
            error := Some (path +:+ " is a directory, not a file.");
            path := path |})
    (fun current =>
  (* Append or write. *)
  if String.eqb oldContent "" then
    let updated := if Nat.ltb 0 (strlen current) then current +:+ newContent else newContent in
    let action := if Nat.ltb 0 (strlen current) then "appended" else "written" in
    setFileTree (fun prev => updateFile path updated prev) ;;
    ret {| success := true; action := Some action; error := None; path := path |}
  else
  (* Search-and-replace: must match exactly once. *)
  let occurrences := length (split current oldContent) - 1 in
  if Nat.eqb occurrences 0 then
    ret {| success := false; action := None;
           error := Some ("oldContent not found in " +:+ path
                          +:+ ". Read the file first to get exact content.");
           path := path |}
  else
  if Nat.ltb 1 occurrences then
    ret {| success := false; action := None;
           error := Some ("oldContent matches " +:+ numberToString occurrences
                          +:+ " locations in " +:+ path
                          +:+ ". Include more surrounding context to make the match unique.");
           path := path |}
  else
    setFileTree (fun prev => updateFile path (replace current oldContent newContent) prev) ;;
    ret {| success := true; action := Some "edited"; error := None; path := path |}).

(** tools.ts, [executeDeleteFile]. *)
Definition executeDeleteFile (path : string) : Tool ToolResult :=
  tree ← getFileTree;
  if negb (existsFile path tree) then
    ret {| success := false; action := None;
           error := Some ("File not found: " +:+ path); path := path |}
  else
    setFileTree (fun prev => removeFile path prev) ;;
    ret {| success := true; action := None; error := None; path := path |}.

(** What the [readFile] tool returns: [{ content }] or [{ error }]. *)
Inductive ReadResult : Type :=
  | ReadContent (content : string)
  | ReadError (error : string).

(** tools.ts, [execute] of the [readFile] tool. *)
Definition readFile (path : string) : Tool ReadResult :=
  tree ← getFileTree;
  if negb (existsFile path tree) then
    ret (ReadError ("File not found: " +:+ path
                    +:+ ". Use listFiles to see available files."))
  else
    try_or_return (call (getFileText path tree))
      (ret (ReadError (path +:+ " is a directory, not a file.")))
      (fun content => ret (ReadContent content)).

(** [{ success: false, error, path }] *)
Definition failure (r : ToolResult) : Prop :=
  success r = false /\ is_Some (error r) /\ action r = None.

(** Either [{success: true, action?, path}] or [{success: false, error, path}]. *)
Definition wellShaped (r : ToolResult) : Prop :=
  (success r = true /\ error r = None) \/ failure r.

End Tools.

(** ** Data of the conversation (types.ts and the hook's interfaces) *)

(** [AgentStatus]: "idle" | "streaming" | "awaiting_approval" | "error". *)
Inductive AgentStatus : Type :=
  | Idle
  | Streaming
  | AwaitingApproval
  | Error.

(** [PendingToolCall.toolName]: "editFile" | "deleteFile". *)
Inductive ApprovalTool : Type :=
  | editFile
  | deleteFile.

Definition approvalToolName (t : ApprovalTool) : string :=
  match t with
  | editFile => "editFile"
  | deleteFile => "deleteFile"
  end.

(** Tool call awaiting user approval. *)
Record PendingToolCall : Type := {
  toolCallId : string;
  toolName : ApprovalTool;
  args : JsValue
}.

(** A tool call as the stream and the step summary carry it; an absent
    [input] or [args] is [JUndefined]. *)
Record StreamToolCall : Type := {
  stc_toolCallId : string;
  stc_toolName : string;
  stc_input : JsValue;
  stc_args : JsValue
}.

Inductive ToolCallState : Type :=
  | pending
  | result.

Record DisplayToolCall : Type := {
  dtc_toolCallId : string;
  dtc_toolName : string;
  dtc_args : JsValue;
  dtc_result : JsValue;
  dtc_state : ToolCallState
}.

Inductive DisplayRole : Type :=
  | user
  | assistant.

(** A message of the transcript; the id [msg-n] is kept as its number [n]. *)
Record DisplayMessage : Type := {
  dm_id : nat;
  dm_role : DisplayRole;
  dm_content : string;
  dm_toolCalls : list DisplayToolCall
}.

(** [{ type: "json", value }] *)
Inductive ToolOutput : Type :=
  | JsonOutput (value : JsValue).

Inductive AssistantPart : Type :=
  | TextPart (text : string)
  | ToolCallPart (toolCallId toolName : string) (input : JsValue).

Record ToolResultPart : Type := {
  trp_toolCallId : string;
  trp_toolName : string;
  trp_output : ToolOutput
}.

(** [ModelMessage]: the history submitted to the model. *)
Inductive ModelMessage : Type :=
  | UserMessage (content : string)
  | AssistantMessage (content : list AssistantPart)
  | ToolMessage (content : list ToolResultPart).

Record StepToolResult : Type := {
  str_toolCallId : string;
  str_toolName : string;
  str_output : JsValue
}.

(** One step of the summary [result.steps]. *)
Record Step : Type := {
  step_text : string;
  step_toolCalls : list StreamToolCall;
  step_toolResults : list StepToolResult
}.

(** The parts of [result.fullStream] that [runStream] distinguishes. *)
Inductive StreamPart : Type :=
  | PartTextDelta (text : string)
  | PartToolCall (toolCallId toolName : string) (input : JsValue)
  | PartToolResult (toolCallId : string) (output : JsValue)
  | PartFinishStep
  | PartOther.

(** What the model backend does to a suspended [runStream]: the awaited
    [agent.stream] settles, the iterator of the [for await] loop yields,
    throws or ends, the awaited [result.steps] settles. *)
Inductive StreamEvent : Type :=
  | StreamOpened
  | StreamRejected
  | Yield (part : StreamPart)
  | IteratorThrew
  | IteratorDone
  | StepsResolved (steps : list Step)
  | StepsRejected.

(** Where an invocation of [runStream] is suspended. *)
Inductive Phase : Type :=
  | AwaitStream
  | Consuming
  | AwaitSteps
  | Returned
  | Crashed.

(** One invocation of [runStream]: its [AbortController]'s flag and its
    local variables. *)
Record Run : Type := {
  aborted : bool;
  coreMessages : list ModelMessage;
  phase : Phase;
  currentAssistantId : option nat;
  currentText : string;
  currentToolCalls : list DisplayToolCall
}.

(** Calls that leave the hook: the tool executors, the editor callbacks
    and the model backend. *)
Inductive Effect : Type :=
  | CallExecuteEditFile (args : EditArgs)
  | CallExecuteDeleteFile (path : string)
  | CallOnFileEdited (path : string)
  | CallOnFileDeleted (path : string)
  | CallAgentStream (controller : nat) (messages : list ModelMessage).

Definition isAgentStream (e : Effect) : bool :=
  match e with
  | CallAgentStream _ _ => true
  | _ => false
  end.

Definition isExecutorCall (e : Effect) : bool :=
  match e with
  | CallExecuteEditFile _ | CallExecuteDeleteFile _ => true
  | _ => false
  end.

(** ** Helpers of the hook *)

(** [getToolCallArgs] *)
Definition getToolCallArgs (toolCall : StreamToolCall) : Completion JsValue :=
  let args := nullish (stc_input toolCall) (stc_args toolCall) in
  if negb (isRecord args) then Throw "Tool call arguments must be an object."
  else Normal args.

(** [asToolOutput] *)
Definition asToolOutput (value : JsValue) : ToolOutput :=
  JsonOutput (nullish value JNull).

(** [Array.prototype.map] with a callback that may throw. *)
Fixpoint mapC {A B} (f : A -> Completion B) (l : list A) : Completion (list B) :=
  match l with
  | [] => Normal []
  | x :: rest =>
      match f x with
      | Throw e => Throw e
      | Normal y =>
          match mapC f rest with
          | Throw e => Throw e
          | Normal ys => Normal (y :: ys)
          end
      end
  end.

Definition requiresApproval (name : string) : option ApprovalTool :=
  if String.eqb name "editFile" then Some editFile
  else if String.eqb name "deleteFile" then Some deleteFile
  else None.

(** [getPendingToolCalls]: all tool calls of the last step that lack a
    result and require approval. *)
Definition getPendingToolCalls (steps : list Step) : Completion (list PendingToolCall) :=
  match last steps with
  | None => Normal []
  | Some lastStep =>
      let resultCallIds : gset string :=
        list_to_set (str_toolCallId <$> step_toolResults lastStep) in
      mapC (fun toolCall =>
              match getToolCallArgs toolCall with
              | Throw e => Throw e
              | Normal a =>
                  Normal {| toolCallId := stc_toolCallId toolCall;
                            toolName := default editFile (requiresApproval (stc_toolName toolCall));
                            args := a |}
              end)
           (List.filter (fun toolCall =>
                      bool_decide (stc_toolCallId toolCall ∉ resultCallIds)
                      && (String.eqb (stc_toolName toolCall) "editFile"
                          || String.eqb (stc_toolName toolCall) "deleteFile"))
                   (step_toolCalls lastStep))
  end.

(** ** The hook's state *)

Section Agent.
Context {FileTree : Type} `{FileTreeOps FileTree}.

(** The state cells ([messages], [status], [pendingApprovals]), the refs
    ([messageCounter], [messagesRef], [abortRef]), every invocation of
    [runStream] made so far (an [AbortController] is named by the index
    of the invocation that created it), the editor's file tree, and the
    calls made to the outside so far. *)
Record World : Type := {
  messages : list DisplayMessage;
  status : AgentStatus;
  pendingApprovals : list PendingToolCall;
  messageCounter : nat;
  messagesRef : list ModelMessage;
  abortRef : option nat;
  runs : list Run;
  fileTree : FileTree;
  trace : list Effect
}.

(** One setter per cell; [setMessages] takes an updater, as the hook always
    passes one. *)
Definition setMessages (f : list DisplayMessage -> list DisplayMessage) (w : World) : World :=
  {| messages := f (messages w); status := status w;
     pendingApprovals := pendingApprovals w; messageCounter := messageCounter w;
     messagesRef := messagesRef w; abortRef := abortRef w; runs := runs w;
     fileTree := fileTree w; trace := trace w |}.

Definition setStatus (s : AgentStatus) (w : World) : World :=
  {| messages := messages w; status := s;
     pendingApprovals := pendingApprovals w; messageCounter := messageCounter w;
     messagesRef := messagesRef w; abortRef := abortRef w; runs := runs w;
     fileTree := fileTree w; trace := trace w |}.

Definition setPendingApprovals (q : list PendingToolCall) (w : World) : World :=
  {| messages := messages w; status := status w;
     pendingApprovals := q; messageCounter := messageCounter w;
     messagesRef := messagesRef w; abortRef := abortRef w; runs := runs w;
     fileTree := fileTree w; trace := trace w |}.

Definition setMessageCounter (n : nat) (w : World) : World :=
  {| messages := messages w; status := status w;
     pendingApprovals := pendingApprovals w; messageCounter := n;
     messagesRef := messagesRef w; abortRef := abortRef w; runs := runs w;
     fileTree := fileTree w; trace := trace w |}.

Definition setMessagesRef (ms : list ModelMessage) (w : World) : World :=
  {| messages := messages w; status := status w;
     pendingApprovals := pendingApprovals w; messageCounter := messageCounter w;
     messagesRef := ms; abortRef := abortRef w; runs := runs w;
     fileTree := fileTree w; trace := trace w |}.

Definition setAbortRef (c : option nat) (w : World) : World :=
  {| messages := messages w; status := status w;
     pendingApprovals := pendingApprovals w; messageCounter := messageCounter w;
     messagesRef := messagesRef w; abortRef := c; runs := runs w;
     fileTree := fileTree w; trace := trace w |}.

Definition setRuns (rs : list Run) (w : World) : World :=
  {| messages := messages w; status := status w;
     pendingApprovals := pendingApprovals w; messageCounter := messageCounter w;
     messagesRef := messagesRef w; abortRef := abortRef w; runs := rs;
     fileTree := fileTree w; trace := trace w |}.

Definition setTree (t : FileTree) (w : World) : World :=
  {| messages := messages w; status := status w;
     pendingApprovals := pendingApprovals w; messageCounter := messageCounter w;
     messagesRef := messagesRef w; abortRef := abortRef w; runs := runs w;
     fileTree := t; trace := trace w |}.

Definition emit (e : Effect) (w : World) : World :=
  {| messages := messages w; status := status w;
     pendingApprovals := pendingApprovals w; messageCounter := messageCounter w;
     messagesRef := messagesRef w; abortRef := abortRef w; runs := runs w;
     fileTree := fileTree w; trace := trace w ++ [e] |}.

(** The state of a freshly mounted hook over a given tree. *)
Definition initial (tree : FileTree) : World :=
  {| messages := []; status := Idle; pendingApprovals := []; messageCounter := 0;
     messagesRef := []; abortRef := None; runs := []; fileTree := tree; trace := [] |}.

Definition withAborted (r : Run) : Run :=
  {| aborted := true; coreMessages := coreMessages r; phase := phase r;
     currentAssistantId := currentAssistantId r; currentText := currentText r;
     currentToolCalls := currentToolCalls r |}.

Definition withPhase (p : Phase) (r : Run) : Run :=
  {| aborted := aborted r; coreMessages := coreMessages r; phase := p;
     currentAssistantId := currentAssistantId r; currentText := currentText r;
     currentToolCalls := currentToolCalls r |}.

Definition withAccumulator (id : option nat) (text : string)
    (toolCalls : list DisplayToolCall) (r : Run) : Run :=
  {| aborted := aborted r; coreMessages := coreMessages r; phase := phase r;
     currentAssistantId := id; currentText := text; currentToolCalls := toolCalls |}.

(** [abortRef.current?.abort()] *)
Definition abortCurrent (w : World) : World :=
  match abortRef w with
  | Some c => setRuns (alter withAborted c (runs w)) w
  | None => w
  end.

Fixpoint findIndex {A} (p : A -> bool) (l : list A) : option nat :=
  match l with
  | [] => None
  | x :: rest => if p x then Some 0 else S <$> findIndex p rest
  end.

(** [updateAssistantMessage] *)
Definition updateAssistantMessage (id : nat) (content : string)
    (toolCalls : list DisplayToolCall) (w : World) : World :=
  setMessages (fun prev =>
    match findIndex (fun message => Nat.eqb (dm_id message) id) prev with
    | None =>
        prev ++ [{| dm_id := id; dm_role := assistant; dm_content := content;
                    dm_toolCalls := toolCalls |}]
    | Some index =>
        alter (fun old => {| dm_id := dm_id old; dm_role := dm_role old;
                             dm_content := content; dm_toolCalls := toolCalls |})
              index prev
    end) w.

(** [refreshAssistantMessage], with [ensureAssistantId] inlined: the
    accumulator of the run is published under its message id, which is
    allotted from [messageCounter] on first use. *)
Definition refreshAssistantMessage (r : Run) (w : World) : Run * World :=
  match currentAssistantId r with
  | Some id => (r, updateAssistantMessage id (currentText r) (currentToolCalls r) w)
  | None =>
      let id := S (messageCounter w) in
      (withAccumulator (Some id) (currentText r) (currentToolCalls r) r,
       updateAssistantMessage id (currentText r) (currentToolCalls r)
         (setMessageCounter id w))
  end.

(** The first tool call with the given id gets its result. *)
Fixpoint resolveFirst (id : string) (output : JsValue) (l : list DisplayToolCall)
    : list DisplayToolCall :=
  match l with
  | [] => []
  | toolCall :: rest =>
      if String.eqb (dtc_toolCallId toolCall) id
      then {| dtc_toolCallId := dtc_toolCallId toolCall;
              dtc_toolName := dtc_toolName toolCall;
              dtc_args := dtc_args toolCall;
              dtc_result := output; dtc_state := result |} :: rest
      else toolCall :: resolveFirst id output rest
  end.

(** The messages one step contributes to the history. *)
Definition stepMessages (step : Step) : Completion (list ModelMessage) :=
  match mapC (fun toolCall =>
                match getToolCallArgs toolCall with
                | Throw e => Throw e
                | Normal a =>
                    Normal (ToolCallPart (stc_toolCallId toolCall) (stc_toolName toolCall) a)
                end) (step_toolCalls step) with
  | Throw e => Throw e
  | Normal callParts =>
      let assistantParts :=
        (if String.eqb (step_text step) "" then [] else [TextPart (step_text step)])
        ++ callParts in
      Normal
        ((if Nat.ltb 0 (length assistantParts)
          then [AssistantMessage assistantParts] else [])
         ++ (if Nat.ltb 0 (length (step_toolResults step))
             then [ToolMessage
                     ((fun toolResult =>
                         {| trp_toolCallId := str_toolCallId toolResult;
                            trp_toolName := str_toolName toolResult;
                            trp_output := asToolOutput (str_output toolResult) |})
                      <$> step_toolResults step)]
             else []))
  end.

(** The loop [for (const step of steps)] of [runStream]. *)
Fixpoint reconcile (steps : list Step) : Completion (list ModelMessage) :=
  match steps with
  | [] => Normal []
  | step :: rest =>
      match stepMessages step with
      | Throw e => Throw e
      | Normal ms =>
          match reconcile rest with
          | Throw e => Throw e
          | Normal more => Normal (ms ++ more)
          end
      end
  end.

(** The invocation [c] of [runStream] is stored back with a new phase. *)
Definition suspend (c : nat) (p : Phase) (r : Run) (w : World) : World :=
  setRuns (<[c := withPhase p r]> (runs w)) w.

(** [runStream(coreMessages)] up to its first [await]: the previous
    controller is aborted, a new one registered, the status set and the
    model called.  The model id is taken to name a model, so that creating
    the agent does not throw. *)
Definition runStream (coreMessages : list ModelMessage) (w : World) : World :=
  let w := abortCurrent w in
  let c := length (runs w) in
  let w := setRuns (runs w ++ [{| aborted := false; coreMessages := coreMessages;
                                  phase := AwaitStream; currentAssistantId := None;
                                  currentText := ""; currentToolCalls := [] |}]) w in
  let w := setAbortRef (Some c) w in
  let w := setStatus Streaming w in
  emit (CallAgentStream c coreMessages) w.

(** The [catch] blocks of [runStream]. *)
Definition onStreamError (c : nat) (r : Run) (w : World) : World :=
  let w := if aborted r then w else setStatus Error w in
  suspend c Returned r (setAbortRef None w).

(** [if (abortController.signal.aborted) { setStatus("idle"); ... return }] *)
Definition onAborted (c : nat) (r : Run) (w : World) : World :=
  suspend c Returned r (setAbortRef None (setStatus Idle w)).

(** One iteration of the [for await] loop on a part. *)
Definition onPart (c : nat) (r : Run) (part : StreamPart) (w : World) : World :=
  if aborted r then onAborted c r w
  else
    match part with
    | PartTextDelta text =>
        let r := withAccumulator (currentAssistantId r) (currentText r +:+ text)
                   (currentToolCalls r) r in
        let '(r, w) := refreshAssistantMessage r w in
        suspend c Consuming r w
    | PartToolCall id name input =>
        match getToolCallArgs {| stc_toolCallId := id; stc_toolName := name;
                                 stc_input := input; stc_args := JUndefined |} with
        | Throw _ => onStreamError c r w
        | Normal a =>
            let r := withAccumulator (currentAssistantId r) (currentText r)
                       (currentToolCalls r
                        ++ [{| dtc_toolCallId := id; dtc_toolName := name; dtc_args := a;
                               dtc_result := JUndefined; dtc_state := pending |}]) r in
            let '(r, w) := refreshAssistantMessage r w in
            suspend c Consuming r w
        end
    | PartToolResult id output =>
        let r := withAccumulator (currentAssistantId r) (currentText r)
                   (resolveFirst id output (currentToolCalls r)) r in
        let '(r, w) := refreshAssistantMessage r w in
        suspend c Consuming r w
    | PartFinishStep =>
        suspend c Consuming (withAccumulator None "" [] r) w
    | PartOther => suspend c Consuming r w
    end.

(** [runStream] after [await result.steps]. *)
Definition onSteps (c : nat) (r : Run) (steps : list Step) (w : World) : World :=
  match reconcile steps with
  | Throw _ => suspend c Crashed r w
  | Normal ms =>
      let nextMessages := coreMessages r ++ ms in
      let w := setMessagesRef nextMessages w in
      match getPendingToolCalls steps with
      | Throw _ => suspend c Crashed r w
      | Normal nextPending =>
          if Nat.ltb 0 (length nextPending)
          then suspend c Returned r
                 (setAbortRef None (setStatus AwaitingApproval
                    (setPendingApprovals nextPending w)))
          else suspend c Returned r
                 (setAbortRef None (setStatus Idle (setPendingApprovals [] w)))
      end
  end.

(** The continuation of invocation [c] of [runStream] when the backend
    produces [ev]; an event the invocation is not waiting for is dropped. *)
Definition deliver (c : nat) (ev : StreamEvent) (w : World) : World :=
  match runs w !! c with
  | None => w
  | Some r =>
      match phase r, ev with
      | AwaitStream, StreamOpened => suspend c Consuming r w
      | AwaitStream, StreamRejected =>
          suspend c Returned r (setAbortRef None (setStatus Error w))
      | Consuming, Yield part => onPart c r part w
      | Consuming, IteratorThrew => onStreamError c r w
      | Consuming, IteratorDone =>
          if aborted r then onAborted c r w else suspend c AwaitSteps r w
      | AwaitSteps, StepsResolved steps => onSteps c r steps w
      | AwaitSteps, StepsRejected => suspend c Crashed r w
      | _, _ => w
      end
  end.

(** The object literal an executor returned, as a value. *)
Definition toolResultValue (r : ToolResult) : JsValue :=
  JObj ([("success", JBool (success r))]
        ++ from_option (fun a => [("action", JStr a)]) [] (action r)
        ++ from_option (fun e => [("error", JStr e)]) [] (error r)
        ++ [("path", JStr (path r))]).

(** [isRecord(toolResult) && toolResult.success === true] *)
Definition succeeded (toolResult : JsValue) : bool :=
  isRecord toolResult
  && match getProp toolResult "success" with
     | JBool true => true
     | _ => false
     end.

(** A tool body run against the editor's tree. *)
Definition runTool {A} (tool : Tool A) (w : World) : Completion A * World :=
  let '(outcome, tree) := tool (fileTree w) in (outcome, setTree tree w).

(** [send] *)
Definition send (text : string) (w : World) : World :=
  match status w with
  | Streaming | AwaitingApproval => w
  | Idle | Error =>
      match abortRef w with
      | Some _ => w
      | None =>
          let trimmed := trim text in
          if String.eqb trimmed "" then w
          else
            let nextMessages := messagesRef w ++ [UserMessage trimmed] in
            let w := setMessagesRef nextMessages w in
            let id := S (messageCounter w) in
            let w := setMessageCounter id w in
            let w := setMessages (fun prev =>
                       prev ++ [{| dm_id := id; dm_role := user; dm_content := trimmed;
                                   dm_toolCalls := [] |}]) w in
            runStream nextMessages w
      end
  end.

(** [executePendingTool]: the result is shown on the tool call with the
    pending id and appended to the history as a tool message. *)
Definition executePendingTool (current : PendingToolCall) (resultValue : JsValue)
    (w : World) : list ModelMessage * World :=
  let w := setMessages (fun prev =>
             (fun message =>
                {| dm_id := dm_id message; dm_role := dm_role message;
                   dm_content := dm_content message;
                   dm_toolCalls :=
                     (fun toolCall =>
                        if String.eqb (dtc_toolCallId toolCall) (toolCallId current)
                        then {| dtc_toolCallId := dtc_toolCallId toolCall;
                                dtc_toolName := dtc_toolName toolCall;
                                dtc_args := dtc_args toolCall;
                                dtc_result := resultValue; dtc_state := result |}
                        else toolCall) <$> dm_toolCalls message |}) <$> prev) w in
  let toolMessage :=
    ToolMessage [{| trp_toolCallId := toolCallId current;
                    trp_toolName := approvalToolName (toolName current);
                    trp_output := asToolOutput resultValue |}] in
  let next := messagesRef w ++ [toolMessage] in
  (next, setMessagesRef next w).

(** The first half of [approve]: the arguments of the head of the queue
    are checked and, when they have the right shape, handed to the
    executor. *)
Definition approvedResult (current : PendingToolCall) (w : World)
    : Completion JsValue * World :=
  match toolName current with
  | editFile =>
      let path := getProp (args current) "path" in
      let oldContent := getProp (args current) "oldContent" in
      let newContent := getProp (args current) "newContent" in
      match path, oldContent, newContent with
      | JStr path, JStr oldContent, JStr newContent =>
          let editArgs := {| edit_path := path; oldContent := oldContent;
                             newContent := newContent |} in
          match runTool (executeEditFile editArgs) (emit (CallExecuteEditFile editArgs) w) with
          | (Throw e, w) => (Throw e, w)
          | (Normal r, w) =>
              let toolResult := toolResultValue r in
              (Normal toolResult,
               if succeeded toolResult then emit (CallOnFileEdited path) w else w)
          end
      | _, _, _ =>
          (* typeof path !== "string" || typeof oldContent !== "string"
             || typeof newContent !== "string" *)
          (Normal (JObj [("success", JBool false);
                         ("error", JStr "editFile arguments are invalid. path, oldContent, and newContent must all be strings.");
                         ("path", JStr (match path with JStr p => p | _ => "" end))]),
           w)
      end
  | deleteFile =>
      let path := getProp (args current) "path" in
      match path with
      | JStr p =>
          if Nat.eqb (strlen p) 0 then
            (Normal (JObj [("success", JBool false);
                           ("error", JStr "deleteFile arguments are invalid. path must be a non-empty string.");
                           ("path", JStr p)]),
             w)
          else
            match runTool (executeDeleteFile p) (emit (CallExecuteDeleteFile p) w) with
            | (Throw e, w) => (Throw e, w)
            | (Normal r, w) =>
                let toolResult := toolResultValue r in
                (Normal toolResult,
                 if succeeded toolResult then emit (CallOnFileDeleted p) w else w)
            end
      | _ =>
          (Normal (JObj [("success", JBool false);
                         ("error", JStr "deleteFile arguments are invalid. path must be a non-empty string.");
                         ("path", JStr "")]),
           w)
      end
  end.

(** The common end of [approve] and [reject]: the result is recorded, the
    head leaves the queue, and the stream resumes once the queue is empty. *)
Definition settle (current : PendingToolCall) (resultValue : JsValue) (w : World) : World :=
  let '(nextMessages, w) := executePendingTool current resultValue w in
  let remaining := drop 1 (pendingApprovals w) in
  if Nat.ltb 0 (length remaining) then setPendingApprovals remaining w
  else runStream nextMessages (setPendingApprovals [] w).

(** [approve]; an exception escaping an executor would leave the callback
    before anything is recorded. *)
Definition approve (w : World) : World :=
  match pendingApprovals w with
  | [] => w
  | current :: _ =>
      match approvedResult current w with
      | (Throw _, w) => w
      | (Normal toolResult, w) => settle current toolResult w
      end
  end.

Definition rejectionResult : JsValue :=
  JObj [("error", JStr "User rejected this action.")].

(** [reject] *)
Definition reject (w : World) : World :=
  match pendingApprovals w with
  | [] => w
  | current :: _ => settle current rejectionResult w
  end.

(** [stop] *)
Definition stop (w : World) : World :=
  setStatus Idle (setAbortRef None (abortCurrent w)).

(** [reset] *)
Definition reset (w : World) : World :=
  setStatus Idle
    (setPendingApprovals []
       (setMessages (fun _ => [])
          (setMessagesRef [] (setAbortRef None (abortCurrent w))))).

(** [pendingApproval]: the first pending item, or null. *)
Definition pendingApproval (w : World) : option PendingToolCall :=
  if Nat.ltb 0 (length (pendingApprovals w)) then pendingApprovals w !! 0 else None.

(** What the UI can do, and what the backend can do to a suspended
    invocation of [runStream]. *)
Inductive Action : Type :=
  | Send (text : string)
  | Approve
  | Reject
  | Stop
  | Reset
  | Backend (c : nat) (ev : StreamEvent).

Definition step (a : Action) (w : World) : World :=
  match a with
  | Send text => send text w
  | Approve => approve w
  | Reject => reject w
  | Stop => stop w
  | Reset => reset w
  | Backend c ev => deliver c ev w
  end.

(** The actions of a list, performed from left to right. *)
Definition perform (actions : list Action) (w : World) : World :=
  foldl (fun w a => step a w) w actions.

End Agent.

Arguments World FileTree : clear implicits.

(** ** Vocabulary of the statements *)

Section Vocabulary.
Context {FileTree : Type} `{FileTreeOps FileTree}.

Implicit Types w : World FileTree.

(** The tool message [executePendingTool] appends for a result. *)
Definition toolMessageFor (current : PendingToolCall) (resultValue : JsValue) : ModelMessage :=
  ToolMessage [{| trp_toolCallId := toolCallId current;
                  trp_toolName := approvalToolName (toolName current);
                  trp_output := asToolOutput resultValue |}].

(** [typeof value === "string" ? value : ""] *)
Definition stringOrEmpty (value : JsValue) : string :=
  match value with
  | JStr s => s
  | _ => ""
  end.

(** The shape check [approve] performs on the arguments of a pending call. *)
Definition argsValid (current : PendingToolCall) : bool :=
  match toolName current with
  | editFile =>
      isString (getProp (args current) "path")
      && isString (getProp (args current) "oldContent")
      && isString (getProp (args current) "newContent")
  | deleteFile =>
      isString (getProp (args current) "path")
      && negb (Nat.eqb (strlen (stringOrEmpty (getProp (args current) "path"))) 0)
  end.

(** [{ success: false, error, path }] *)
Definition failureValue (message path : string) : JsValue :=
  JObj [("success", JBool false); ("error", JStr message); ("path", JStr path)].


(** A tool call of the last step whose id has no entry among the results of
    that step and whose tool is [editFile] or [deleteFile]. *)
Definition awaitsApproval (lastStep : Step) (toolCall : StreamToolCall) : Prop :=
  (stc_toolCallId toolCall ∉ (str_toolCallId <$> step_toolResults lastStep))
  /\ (stc_toolName toolCall = "editFile" \/ stc_toolName toolCall = "deleteFile").

#[export] Instance awaitsApproval_dec lastStep toolCall :
  Decision (awaitsApproval lastStep toolCall).
Proof. unfold awaitsApproval. apply _. Defined.


(** The executor call that approving an entry makes, if its arguments pass
    the check. *)
Definition executorCallsOf (entry : PendingToolCall) : list Effect :=
  match toolName entry with
  | editFile =>
      match getProp (args entry) "path", getProp (args entry) "oldContent",
            getProp (args entry) "newContent" with
      | JStr p, JStr o, JStr n =>
          [CallExecuteEditFile {| edit_path := p; oldContent := o; newContent := n |}]
      | _, _, _ => []
      end
  | deleteFile =>
      match getProp (args entry) "path" with
      | JStr p => if String.eqb p "" then [] else [CallExecuteDeleteFile p]
      | _ => []
      end
  end.


(** The invocation [c] of [runStream] has had its controller aborted before
    its stream was read to the end: it is still waiting for the stream or
    for a part of it, or it has returned. *)
Definition cancelled (c : nat) w : Prop :=
  exists r, runs w !! c = Some r /\ aborted r = true /\ phase r <> AwaitSteps.

(** A stream that is still in flight: [runStream] waits for it to open or
    for its next part.  Once the iterator is exhausted there is no stream
    left to cancel: [runStream] only awaits the step summary and rebuilds
    the history from it without looking at the flag again. *)
Definition inFlight (r : Run) : Prop :=
  phase r = AwaitStream \/ phase r = Consuming.

End Vocabulary.

(** ** Example conversations *)

Definition createArgs : JsValue :=
  JObj [("path", JStr "main.tf"); ("oldContent", JStr "");
        ("newContent", JStr "variable x {}")].

Definition deleteArgs : JsValue := JObj [("path", JStr "old.tf")].

(** A step with two parallel calls that await approval and one call that
    was executed on the spot. *)
Definition parallelStep : Step :=
  {| step_text := "Adding the variable.";
     step_toolCalls :=
       [{| stc_toolCallId := "call-1"; stc_toolName := "editFile";
           stc_input := createArgs; stc_args := JUndefined |};
        {| stc_toolCallId := "call-0"; stc_toolName := "listFiles";
           stc_input := JObj []; stc_args := JUndefined |};
        {| stc_toolCallId := "call-2"; stc_toolName := "deleteFile";
           stc_input := deleteArgs; stc_args := JUndefined |}];
     step_toolResults :=
       [{| str_toolCallId := "call-0"; str_toolName := "listFiles";
           str_output := JObj [("files", JArr [JStr "old.tf"])] |}] |}.

Definition startTree : MapTree := {[ "old.tf" := File "resource" ]}.

(** [send], then the stream opens and produces some text. *)
Definition midStream : World MapTree :=
  perform [Send " add a var "; Backend 0 StreamOpened;
           Backend 0 (Yield (PartTextDelta "Adding"))]
    (initial startTree).

(** The stream was read to its end; the step summary is awaited. *)
Definition streamRead : World MapTree :=
  perform [Backend 0 (Yield (PartToolCall "call-1" "editFile" createArgs));
           Backend 0 (Yield PartFinishStep); Backend 0 IteratorDone]
    midStream.

(** The turn ended with two calls to approve. *)
Definition awaitingTwo : World MapTree :=
  deliver 0 (StepsResolved [parallelStep]) streamRead.

(** A pending call whose arguments are not strings. *)
Definition malformedCall : PendingToolCall :=
  {| toolCallId := "call-9"; toolName := editFile;
     args := JObj [("path", JStr "main.tf"); ("oldContent", JNum 1)] |}.

(** The stream could not be opened. *)
Definition failedTurn : World MapTree :=
  perform [Send "add a var"; Backend 0 StreamRejected] (initial startTree).

(** A whole turn from a fresh mount, ending with two calls to approve. *)
Definition approvalTurn : World MapTree :=
  perform [Send " add a var "; Backend 0 StreamOpened;
           Backend 0 (Yield (PartTextDelta "Adding"));
           Backend 0 (Yield (PartToolCall "call-1" "editFile" createArgs));
           Backend 0 (Yield PartFinishStep); Backend 0 IteratorDone;
           Backend 0 (StepsResolved [parallelStep])]
    (initial startTree).

(** The step the backend reports for the stream read in [streamRead]. *)
Definition streamedStep : Step :=
  {| step_text := "Adding";
     step_toolCalls :=
       [{| stc_toolCallId := "call-1"; stc_toolName := "editFile";
           stc_input := createArgs; stc_args := JUndefined |}];
     step_toolResults := [] |}.

(** A step of text only. *)
Definition renamingStep : Step :=
  {| step_text := "Renaming"; step_toolCalls := []; step_toolResults := [] |}.

(** The stream of [midStream] is stopped and a new message is sent before
    the stopped stream sees its next part. *)
Definition orphanedStream : World MapTree :=
  perform [Stop; Send "rename it"; Backend 0 (Yield (PartTextDelta " a variable"))]
    midStream.

(** What the backend delivers to the second stream of [orphanedStream]. *)
Definition renamingTurn : list Action :=
  [Backend 1 StreamOpened; Backend 1 (Yield (PartTextDelta "Renaming"));
   Backend 1 IteratorDone; Backend 1 (StepsResolved [renamingStep])].

(** * The code around the approval loop *)

(** ** More string and array built-ins *)

(** [s.slice(n)] for a start [n] within the string or past its end. *)
Fixpoint sliceFrom (n : nat) (s : string) : string :=
  match n, s with
  | 0, _ => s
  | S n', String _ rest => sliceFrom n' rest
  | S _, EmptyString => EmptyString
  end.

(** [s.startsWith(searchString)] *)
Definition startsWith (s searchString : string) : bool := String.prefix searchString s.

(** [Array.prototype.join] *)
Fixpoint join (sep : string) (items : list string) : string :=
  match items with
  | [] => ""
  | x :: rest =>
      match rest with
      | [] => x
      | _ :: _ => x +:+ sep +:+ join sep rest
      end
  end.

(** [pat] occurs in [s]. *)
Definition occurs (pat s : string) : Prop :=
  exists before after, s = before +:+ pat +:+ after.

(** [pat] occurs in [s] at two places that do not overlap. *)
Definition occursTwice (pat s : string) : Prop :=
  exists before between after, s = before +:+ pat +:+ between +:+ pat +:+ after.

(** Modelled from the spec: what the store guarantees after [update] and
    [remove]; an updated path exists and reads back its new content, a
    removed path does not exist. *)
Class FileTreeUpdateLaws (FileTree : Type) `{FileTreeOps FileTree} : Prop := {
  existsFile_updateFile : forall path content tree,
    existsFile path (updateFile path content tree) = true;
  getFileText_updateFile : forall path content tree,
    getFileText path (updateFile path content tree) = Normal content;
  existsFile_removeFile : forall path tree,
    existsFile path (removeFile path tree) = false
}.

(** The line feed, the separator of [content.split("\n")]. *)
Definition newline : string := String (ascii_of_nat 10) "".

(** ** Model identifiers (the hook and the model discovery) *)

(** What [resolveProviderModel] returns: the provider called, with the
    model id it is given. *)
Inductive ProviderModel : Type :=
  | anthropicProvider (anthropicModelID : string)
  | openAIProvider (modelID : string).

Definition anthropicModelPrefix : string := "anthropic/".

(** [resolveProviderModel] of the hook. *)
Definition resolveProviderModel (modelID : string) : Completion ProviderModel :=
  if startsWith modelID anthropicModelPrefix then
    let anthropicModelID := sliceFrom (strlen anthropicModelPrefix) modelID in
    if String.eqb anthropicModelID "" then Throw "Anthropic model ID cannot be empty."
    else Normal (anthropicProvider anthropicModelID)
  else Normal (openAIProvider modelID).

(** [toOpenAICompatibleAnthropicModelID] of the model discovery that
    returns plain ids. *)
Definition toOpenAICompatibleAnthropicModelID (modelID : string) : string :=
  if startsWith modelID "anthropic/" then modelID else "anthropic/" +:+ modelID.

(** [AIBridgeProvider]: "openai" | "anthropic". *)
Inductive AIBridgeProvider : Type :=
  | openai
  | anthropic.

Definition providerName (provider : AIBridgeProvider) : string :=
  match provider with
  | openai => "openai"
  | anthropic => "anthropic"
  end.

Record AIBridgeModel : Type := {
  model_id : string;
  model_provider : AIBridgeProvider
}.

(** [parseProviderModels]: the entries of [body.data] that are objects with
    a non-empty string [id]. *)
Definition parseProviderModels (body : JsValue) (provider : AIBridgeProvider)
    : list AIBridgeModel :=
  if negb (isRecord body) then []
  else
    match getProp body "data" with
    | JArr items =>
        flat_map (fun model =>
                    if negb (isRecord model) then []
                    else
                      match getProp model "id" with
                      | JStr id =>
                          if Nat.eqb (strlen id) 0 then []
                          else [{| model_id := id; model_provider := provider |}]
                      | _ => []
                      end) items
    | _ => []
    end.

(** A settled promise, as [Promise.allSettled] reports it. *)
Inductive Settled (A : Type) : Type :=
  | fulfilled (value : A)
  | rejected.
Arguments fulfilled {A} value.
Arguments rejected {A}.

Record HttpResponse : Type := {
  response_status : Z;
  response_data : JsValue
}.

(** [fetchProviderModels]: the request may fail; an answered request never
    does, whatever its status ([validateStatus: () => true]). *)
Definition fetchProviderModels (response : Settled HttpResponse)
    (provider : AIBridgeProvider) : Settled (list AIBridgeModel) :=
  match response with
  | rejected => rejected
  | fulfilled r =>
      if (Z.ltb (response_status r) 200 || Z.leb 300 (response_status r))%bool
      then fulfilled []
      else fulfilled (parseProviderModels (response_data r) provider)
  end.

(** [getModelKey] *)
Definition getModelKey (model : AIBridgeModel) : string :=
  providerName (model_provider model) +:+ ":" +:+ model_id model.

(** The loop over [models] of [aiBridgeModels]: a model is kept unless its
    key was seen before. *)
Fixpoint dedupeModels (seenModelKeys : gset string) (models : list AIBridgeModel)
    : list AIBridgeModel :=
  match models with
  | [] => []
  | model :: rest =>
      let modelKey := getModelKey model in
      if decide (modelKey ∈ seenModelKeys) then dedupeModels seenModelKeys rest
      else model :: dedupeModels ({[ modelKey ]} ∪ seenModelKeys) rest
  end.

(** [queryFn] of [aiBridgeModels], in the variant that settles both probes
    and throws when nothing was discovered and a probe failed. *)
Definition aiBridgeModels (openAIResponse anthropicResponse : Settled HttpResponse)
    : Completion (list AIBridgeModel) :=
  let openAIProbe := fetchProviderModels openAIResponse openai in
  let anthropicProbe := fetchProviderModels anthropicResponse anthropic in
  let models :=
    flat_map (fun probe => match probe with fulfilled value => value | rejected => [] end)
      [openAIProbe; anthropicProbe] in
  let hadProbeFailure :=
    (match openAIProbe with rejected => true | _ => false end
     || match anthropicProbe with rejected => true | _ => false end)%bool in
  if (Nat.eqb (length models) 0 && hadProbeFailure)%bool
  then Throw "Failed to refresh AI bridge model discovery from one or more providers."
  else Normal (dedupeModels ∅ models).

(** ** The single-approval variant of the hook *)

(** [getPendingToolCall]: the first tool call of the last step without a
    result, if it requires approval. *)
Definition getPendingToolCall (steps : list Step) : Completion (option PendingToolCall) :=
  match last steps with
  | None => Normal None
  | Some lastStep =>
      let resultCallIds : gset string :=
        list_to_set (str_toolCallId <$> step_toolResults lastStep) in
      match List.find (fun toolCall =>
                         bool_decide (stc_toolCallId toolCall ∉ resultCallIds))
                      (step_toolCalls lastStep) with
      | None => Normal None
      | Some pendingToolCall =>
          if (negb (String.eqb (stc_toolName pendingToolCall) "editFile")
              && negb (String.eqb (stc_toolName pendingToolCall) "deleteFile"))%bool
          then Normal None
          else
            match getToolCallArgs pendingToolCall with
            | Throw e => Throw e
            | Normal a =>
                Normal (Some {| toolCallId := stc_toolCallId pendingToolCall;
                                toolName := default editFile
                                              (requiresApproval (stc_toolName pendingToolCall));
                                args := a |})
            end
      end
  end.

(** ** The cards of the transcript *)

Inductive DiffLineType : Type :=
  | added
  | removed.

Record DiffLine : Type := {
  dl_type : DiffLineType;
  dl_text : string
}.

(** The line is of the given kind. *)
Definition hasType (t : DiffLineType) (line : DiffLine) : bool :=
  match t, dl_type line with
  | added, added | removed, removed => true
  | _, _ => false
  end.

(** [splitLines] *)
Definition splitLines (content : string) : list string := split content newline.

(** [buildDiffLines] of the approval card. *)
Definition buildDiffLines (oldContent newContent : string) : list DiffLine :=
  if Nat.eqb (strlen oldContent) 0 then
    (fun line => {| dl_type := added; dl_text := line |}) <$> splitLines newContent
  else
    let removedLines :=
      (fun line => {| dl_type := removed; dl_text := line |}) <$> splitLines oldContent in
    let addedLines :=
      (fun line => {| dl_type := added; dl_text := line |}) <$> splitLines newContent in
    removedLines ++ addedLines.

Definition MAX_VISIBLE_READ_LINES : nat := 20.

(** [readFileLines] of the tool-call card; [None] is a result without a
    string [content]. *)
Definition readFileLines (readFileContent : option string) : list string :=
  match readFileContent with
  | None => []
  | Some content => split content newline
  end.

Definition hasTruncatedReadFile (readFileContent : option string) : bool :=
  Nat.ltb MAX_VISIBLE_READ_LINES (length (readFileLines readFileContent)).

Definition displayedReadFileLines (showAllReadLines : bool)
    (readFileContent : option string) : list string :=
  if showAllReadLines then readFileLines readFileContent
  else take MAX_VISIBLE_READ_LINES (readFileLines readFileContent).

(** The text of the [pre] element: [displayedReadFileLines.join("\n")]. *)
Definition displayedReadFileText (showAllReadLines : bool)
    (readFileContent : option string) : string :=
  join newline (displayedReadFileLines showAllReadLines readFileContent).

(** [isPending] of [ChatMessage]: whether the card of a tool call shows the
    Approve and Reject buttons. *)
Definition isPending (pendingApproval : option PendingToolCall)
    (toolCall : DisplayToolCall) : bool :=
  match pendingApproval with
  | None => false
  | Some head =>
      String.eqb (toolCallId head) (dtc_toolCallId toolCall)
      && match dtc_state toolCall with pending => true | result => false end
  end.

Section Panel.
Context {FileTree : Type} `{FileTreeOps FileTree}.

(** [inputDisabled] of the chat panel. *)
Definition inputDisabled (w : World FileTree) : bool :=
  match status w with
  | Streaming | AwaitingApproval => true
  | Idle | Error => false
  end.

(** [handleSend] of the chat input, as far as the conversation goes: the
    trimmed value is handed to [onSend] unless the input is disabled or
    blank. *)
Definition handleSend (disabled : bool) (value : string)
    (onSend : string -> World FileTree -> World FileTree) (w : World FileTree)
    : World FileTree :=
  if disabled then w
  else
    let trimmed := trim value in
    if String.eqb trimmed "" then w else onSend trimmed w.

(** The chat input as the panel mounts it:
    [<ChatInput onSend={send} disabled={inputDisabled} />]. *)
Definition submit (value : string) (w : World FileTree) : World FileTree :=
  handleSend (inputDisabled w) value send w.

(** The states the hook can be in: those reached from a fresh mount. *)
Definition reachable (w : World FileTree) : Prop :=
  exists tree actions, w = perform actions (initial tree).

End Panel.

(** ** Invariants of the hook *)

Section Invariants.
Context {FileTree : Type} `{FileTreeOps FileTree}.

(** A registered cancellation handle belongs to a stream that was not
    aborted, and the status is then [streaming]; while approvals are
    awaited the queue is not empty. *)
Definition coherent (w : World FileTree) : Prop :=
  (forall c, abortRef w = Some c ->
     status w = Streaming /\ exists r, runs w !! c = Some r /\ aborted r = false)
  /\ (status w = AwaitingApproval -> pendingApprovals w <> []).

(** The run has not been given a message id beyond the counter. *)
Definition idWithin (n : nat) (r : Run) : Prop :=
  forall id, currentAssistantId r = Some id -> id <= n.

(** The ids of the transcript are pairwise distinct, and neither the
    transcript nor an invocation of [runStream] holds an id beyond
    [messageCounter]. *)
Definition idsFresh (w : World FileTree) : Prop :=
  NoDup (dm_id <$> messages w)
  /\ Forall (fun m => dm_id m <= messageCounter w) (messages w)
  /\ Forall (idWithin (messageCounter w)) (runs w).

(** [message.role === "user"] *)
Definition isUser (message : DisplayMessage) : bool :=
  match dm_role message with
  | user => true
  | assistant => false
  end.

(** What the transcript shows as said by the user: the id and the text of
    every user message, in order. *)
Definition userSaid (w : World FileTree) : list (nat * string) :=
  (fun message => (dm_id message, dm_content message))
    <$> List.filter isUser (messages w).

(** The id the run publishes under, if it has one, is the id of assistant
    messages only. *)
Definition ownsAssistant (ms : list DisplayMessage) (r : Run) : Prop :=
  forall id, currentAssistantId r = Some id ->
    Forall (fun m => dm_id m = id -> dm_role m = assistant) ms.

Definition ownIds (w : World FileTree) : Prop :=
  Forall (ownsAssistant (messages w)) (runs w).

(** Every queued call holds an object as its arguments. *)
Definition objectArgs (w : World FileTree) : Prop :=
  Forall (fun pending => isRecord (args pending) = true) (pendingApprovals w).

End Invariants.

(** * Properties *)

(** ** The concrete store satisfies the laws of the collaborator *)

#[export] Instance MapTree_laws : FileTreeLaws MapTree.
Proof.
  split; intros p tree content; cbn.
  - rewrite lookup_insert_eq. apply bool_decide_eq_true. by eexists.
  - by rewrite lookup_insert_eq.
Qed.

(** ** String built-ins *)

Example split_counts_matches :
  split "a,b,,c" "," = ["a"; "b"; ""; "c"]
  /\ split "ab" "b" = ["a"; ""]
  /\ split "" "b" = [""]
  /\ split "aaa" "aa" = [""; "a"].
Proof. by repeat split. Qed.

Example replace_first_occurrence :
  replace "a-b-c" "-" "+" = "a+b-c"
  /\ replace "abc" "x" "y" = "abc"
  /\ replace "abc" "b" "[$&]" = "a[b]c"
  /\ replace "abc" "b" "$1" = "a$1c".
Proof. by repeat split. Qed.

Example trim_both_ends : trim "  add a var " = "add a var".
Proof. reflexivity. Qed.

Lemma getSubstitution_no_dollar matched preceding following template :
  Forall (fun c => c <> "$"%char) (list_ascii_of_string template) ->
  getSubstitution matched preceding following template = template.
Proof.
  induction template as [|c rest IH]; intros Hfree; [reflexivity|].
  cbn [list_ascii_of_string] in Hfree.
  apply Forall_cons in Hfree as [Hc Hrest].
  assert (Hstep : getSubstitution matched preceding following (String c rest)
                  = String c (getSubstitution matched preceding following rest)).
  { destruct (Ascii.eqb_spec c "$"%char) as [->|Hne]; [congruence|].
    destruct c as [[] [] [] [] [] [] [] []]; try reflexivity; congruence. }
  rewrite Hstep, IH by assumption. reflexivity.
Qed.

Lemma substring_all (s : string) : substring 0 (strlen s) s = s.
Proof. induction s as [|c s IH]; [reflexivity|]. cbn. f_equal. exact IH. Qed.

Lemma append_cons (c : ascii) (s t : string) : String c s +:+ t = String c (s +:+ t).
Proof. reflexivity. Qed.

Lemma append_empty_r (s : string) : s +:+ "" = s.
Proof. induction s as [|c s IH]; [reflexivity|]. by rewrite append_cons, IH. Qed.

Lemma append_assoc_char (piece s : string) (c : ascii) :
  (piece +:+ String c "") +:+ s = piece +:+ String c s.
Proof. induction piece as [|d piece IH]; [reflexivity|]. by rewrite !append_cons, IH. Qed.

Lemma prefix_split (pat s : string) :
  String.prefix pat s = true ->
  s = pat +:+ substring (strlen pat) (strlen s - strlen pat) s.
Proof.
  revert s. induction pat as [|c pat IH]; intros s Hpre.
  - change (strlen "") with 0. rewrite Nat.sub_0_r, substring_all. reflexivity.
  - destruct s as [|d s]; [discriminate|]. cbn [String.prefix] in Hpre.
    destruct (Ascii.ascii_dec c d) as [<-|]; [|discriminate].
    change (strlen (String c pat)) with (S (strlen pat)).
    change (strlen (String c s)) with (S (strlen s)).
    cbn [Nat.sub substring]. rewrite append_cons. f_equal. by apply IH.
Qed.

(** The position [indexOf] finds splits the string around the pattern. *)
Lemma indexOf_split (s pat : string) (pos : nat) :
  indexOf s pat = Some pos ->
  s = substring 0 pos s +:+ pat
      +:+ substring (pos + strlen pat) (strlen s - (pos + strlen pat)) s.
Proof.
  revert pos. induction s as [|c rest IH]; intros pos Hidx.
  - cbn [indexOf] in Hidx. destruct (String.prefix pat "") eqn:Hpre; [|discriminate].
    injection Hidx as <-. destruct pat; [reflexivity|discriminate].
  - cbn [indexOf] in Hidx.
    destruct (String.prefix pat (String c rest)) eqn:Hpre.
    + injection Hidx as <-. cbn [substring Nat.add]. by apply prefix_split.
    + destruct (indexOf rest pat) as [pos'|] eqn:Hrest; [|discriminate].
      injection Hidx as <-.
      change (strlen (String c rest)) with (S (strlen rest)).
      cbn [Nat.add Nat.sub substring]. rewrite append_cons. f_equal. by apply IH.
Qed.

(** Without an occurrence [split] returns the string in one piece. *)
Lemma split_go_no_occurrence (pat piece s : string) :
  indexOf s pat = None -> split_go pat 0 piece s = [piece +:+ s].
Proof.
  revert piece. induction s as [|c rest IH]; intros piece Hidx.
  - cbn [split_go]. by rewrite append_empty_r.
  - cbn [indexOf] in Hidx. cbn [split_go].
    destruct (String.prefix pat (String c rest)); [discriminate|].
    destruct (indexOf rest pat); [discriminate|].
    rewrite IH by reflexivity. by rewrite append_assoc_char.
Qed.

(** A replacement text without dollar signs is inserted as it is. *)
Lemma replace_without_dollar (s pat replacement : string) :
  pat <> "" ->
  length (split s pat) - 1 <> 0 ->
  Forall (fun c => c <> "$"%char) (list_ascii_of_string replacement) ->
  exists preceding following,
    s = preceding +:+ pat +:+ following
    /\ replace s pat replacement = preceding +:+ replacement +:+ following.
Proof.
  intros Hpat Hocc Hfree. unfold replace.
  destruct (indexOf s pat) as [pos|] eqn:Hidx.
  - eexists _, _. split; [by apply indexOf_split|].
    by rewrite getSubstitution_no_dollar.
  - exfalso. apply Hocc. unfold split.
    destruct pat; [done|]. by rewrite split_go_no_occurrence.
Qed.

(** ** Tool executors *)

Section ToolFacts.
Context {FileTree : Type} `{FileTreeOps FileTree}.

(** The body of [executeEditFile] with the plumbing of the tree unfolded. *)
Lemma executeEditFile_eq (args : EditArgs) (tree : FileTree) :
  executeEditFile args tree =
    let p := edit_path args in
    let ok action := {| success := true; action := Some action; error := None; path := p |} in
    let ko message := {| success := false; action := None; error := Some message; path := p |} in
    if existsFile p tree then
      match getFileText p tree with
      | Throw _ => (Normal (ko (p +:+ " is a directory, not a file.")), tree)
      | Normal current =>
          if String.eqb (oldContent args) "" then
            if Nat.ltb 0 (strlen current)
            then (Normal (ok "appended"), updateFile p (current +:+ newContent args) tree)
            else (Normal (ok "written"), updateFile p (newContent args) tree)
          else
            let occurrences := length (split current (oldContent args)) - 1 in
            if Nat.eqb occurrences 0 then
              (Normal (ko ("oldContent not found in " +:+ p
                           +:+ ". Read the file first to get exact content.")), tree)
            else if Nat.ltb 1 occurrences then
              (Normal (ko ("oldContent matches " +:+ numberToString occurrences
                           +:+ " locations in " +:+ p
                           +:+ ". Include more surrounding context to make the match unique.")),
               tree)
            else (Normal (ok "edited"),
                  updateFile p (replace current (oldContent args) (newContent args)) tree)
      end
    else if String.eqb (oldContent args) ""
    then (Normal (ok "created"), createFile p tree (newContent args))
    else (Normal (ko ("File not found: " +:+ p +:+ ". Use listFiles first.")), tree).
Proof.
  unfold executeEditFile, try_or_return, call, mbind, Tool_bind, bind,
    getFileTree, setFileTree, ret.
  cbv zeta.
  destruct (existsFile (edit_path args) tree); cbn [negb andb].
  - destruct (getFileText (edit_path args) tree) as [current|e]; [|reflexivity].
    destruct (String.eqb (oldContent args) ""); [by destruct (Nat.ltb 0 (strlen current))|].
    destruct (Nat.eqb (length (split current (oldContent args)) - 1) 0); [reflexivity|].
    by destruct (Nat.ltb 1 (length (split current (oldContent args)) - 1)).
  - by destruct (String.eqb (oldContent args) "").
Qed.

Lemma executeEditFile_returns (args : EditArgs) (tree : FileTree) :
  exists r tree',
    executeEditFile args tree = (Normal r, tree')
    /\ path r = edit_path args /\ wellShaped r.
Proof.
  rewrite executeEditFile_eq. cbv zeta. unfold wellShaped, failure.
  repeat case_match; do 2 eexists; (split; [reflexivity|]); cbn; eauto 6.
Qed.

Lemma executeDeleteFile_eq (p : string) (tree : FileTree) :
  executeDeleteFile p tree =
    if existsFile p tree
    then (Normal {| success := true; action := None; error := None; path := p |},
          removeFile p tree)
    else (Normal {| success := false; action := None;
                    error := Some ("File not found: " +:+ p); path := p |},
          tree).
Proof.
  unfold executeDeleteFile, mbind, Tool_bind, bind, getFileTree, setFileTree, ret.
  cbn. by destruct (existsFile p tree).
Qed.

Lemma executeDeleteFile_returns (p : string) (tree : FileTree) :
  exists r tree',
    executeDeleteFile p tree = (Normal r, tree') /\ path r = p /\ wellShaped r.
Proof.
  rewrite executeDeleteFile_eq.
  destruct (existsFile p tree); do 2 eexists; (split; [reflexivity|]); cbn;
    (split; [reflexivity|]); unfold wellShaped, failure; cbn; eauto.
Qed.

(** With a non-empty [oldContent] on an existing file, a count other than
    one is reported as a failure and the tree is left as it was. *)
Lemma executeEditFile_no_unique_match (args : EditArgs) (tree : FileTree) current :
  existsFile (edit_path args) tree = true ->
  getFileText (edit_path args) tree = Normal current ->
  oldContent args <> "" ->
  length (split current (oldContent args)) - 1 <> 1 ->
  exists r, executeEditFile args tree = (Normal r, tree)
            /\ failure r /\ path r = edit_path args.
Proof.
  intros Hex Htext Hold Hocc.
  rewrite executeEditFile_eq. cbv zeta. rewrite Hex, Htext.
  destruct (String.eqb_spec (oldContent args) "") as [|_]; [done|].
  destruct (Nat.eqb_spec (length (split current (oldContent args)) - 1) 0) as [|Hnz].
  { eexists. split; [reflexivity|]. unfold failure. cbn. eauto. }
  destruct (Nat.ltb_spec 1 (length (split current (oldContent args)) - 1)) as [|Hle].
  { eexists. split; [reflexivity|]. unfold failure. cbn. eauto. }
  lia.
Qed.

(** With exactly one match the file is rewritten with what
    [String.prototype.replace] produces. *)
Lemma executeEditFile_unique_match (args : EditArgs) (tree : FileTree) current :
  existsFile (edit_path args) tree = true ->
  getFileText (edit_path args) tree = Normal current ->
  oldContent args <> "" ->
  length (split current (oldContent args)) - 1 = 1 ->
  executeEditFile args tree =
    (Normal {| success := true; action := Some "edited"; error := None;
               path := edit_path args |},
     updateFile (edit_path args)
       (replace current (oldContent args) (newContent args)) tree).
Proof.
  intros Hex Htext Hold Hocc.
  rewrite executeEditFile_eq. cbv zeta. rewrite Hex, Htext.
  destruct (String.eqb_spec (oldContent args) "") as [|_]; [done|].
  rewrite Hocc. reflexivity.
Qed.

(** When [newContent] holds no dollar sign, the unique occurrence is
    replaced by it literally. *)
Lemma executeEditFile_literal_without_dollar (args : EditArgs) (tree : FileTree) current :
  existsFile (edit_path args) tree = true ->
  getFileText (edit_path args) tree = Normal current ->
  oldContent args <> "" ->
  length (split current (oldContent args)) - 1 = 1 ->
  Forall (fun c => c <> "$"%char) (list_ascii_of_string (newContent args)) ->
  exists preceding following,
    current = preceding +:+ oldContent args +:+ following
    /\ executeEditFile args tree =
         (Normal {| success := true; action := Some "edited"; error := None;
                    path := edit_path args |},
          updateFile (edit_path args) (preceding +:+ newContent args +:+ following) tree).
Proof.
  intros Hex Htext Hold Hocc Hfree.
  destruct (replace_without_dollar current (oldContent args) (newContent args))
    as (preceding & following & Hsplit & Hrepl); [done|lia|done|].
  exists preceding, following. split; [exact Hsplit|].
  rewrite <- Hrepl. by apply executeEditFile_unique_match.
Qed.

End ToolFacts.

(** C2 (defect): with exactly one occurrence of [oldContent] the edit is
    reported as "edited", but the occurrence is not replaced by
    [newContent] literally: [String.prototype.replace] expands dollar
    patterns of the replacement, so a [newContent] of two dollar signs is
    written as one. *)
Theorem C2_edit_expands_dollar_patterns :
  let tree : MapTree := {[ "main.tf" := File "id = OLD" ]} in
  let args := {| edit_path := "main.tf"; oldContent := "OLD";
                 newContent := "$${var.id}" |} in
  length (split "id = OLD" (oldContent args)) - 1 = 1
  /\ executeEditFile args tree =
       (Normal {| success := true; action := Some "edited"; error := None;
                  path := "main.tf" |},
        {[ "main.tf" := File "id = ${var.id}" ]})
  /\ "id = ${var.id}" <> "id = " +:+ newContent args.
Proof.
  cbn zeta. split; [reflexivity|]. split; [|discriminate].
  vm_compute. reflexivity.
Qed.

(** C9: [executeDeleteFile] fails on a path that does not exist and
    otherwise removes it; both executors return a well-shaped result on
    every input and never throw. *)
Theorem C9_executors_total {FileTree : Type} `{FileTreeOps FileTree} (tree : FileTree) :
  (forall p,
     executeDeleteFile p tree =
       if existsFile p tree
       then (Normal {| success := true; action := None; error := None; path := p |},
             removeFile p tree)
       else (Normal {| success := false; action := None;
                       error := Some ("File not found: " +:+ p); path := p |},
             tree))
  /\ (forall p, exists r tree',
        executeDeleteFile p tree = (Normal r, tree') /\ path r = p /\ wellShaped r)
  /\ (forall args, exists r tree',
        executeEditFile args tree = (Normal r, tree')
        /\ path r = edit_path args /\ wellShaped r).
Proof.
  split; [intros p; apply executeDeleteFile_eq|].
  split; [intros p; apply executeDeleteFile_returns|].
  intros args; apply executeEditFile_returns.
Qed.

Lemma strlen_positive (s : string) :
  Nat.ltb 0 (strlen s) = negb (String.eqb s "").
Proof. by destruct s. Qed.

(** C8: with an empty [oldContent] the edit creates an absent file and
    reports "created", after which [readFile] returns exactly
    [newContent]; on a present file it appends to a non-empty content and
    writes over an empty one. *)
Theorem C8_edit_with_empty_oldContent {FileTree : Type} `{FileTreeLaws FileTree}
    (p content : string) (tree : FileTree) :
  let args := {| edit_path := p; oldContent := ""; newContent := content |} in
  (existsFile p tree = false ->
     executeEditFile args tree =
       (Normal {| success := true; action := Some "created"; error := None; path := p |},
        createFile p tree content)
     /\ (readFile p (executeEditFile args tree).2).1 = Normal (ReadContent content))
  /\ (forall current,
        existsFile p tree = true ->
        getFileText p tree = Normal current ->
        executeEditFile args tree =
          (Normal {| success := true;
                     action := Some (if String.eqb current "" then "written" else "appended");
                     error := None; path := p |},
           updateFile p (if String.eqb current "" then content else current +:+ content)
             tree)).
Proof.
  intros args. subst args. split.
  - intros Habsent.
    match goal with |- ?lhs = ?rhs /\ _ => assert (Hrun : lhs = rhs) end.
    { rewrite executeEditFile_eq. cbv zeta.
      cbn [edit_path oldContent newContent String.eqb]. by rewrite Habsent. }
    split; [exact Hrun|].
    rewrite Hrun. cbn [snd].
    unfold readFile, try_or_return, call, mbind, Tool_bind, bind, getFileTree, ret.
    by rewrite existsFile_createFile, getFileText_createFile.
  - intros current Hpresent Htext.
    rewrite executeEditFile_eq. cbv zeta.
    cbn [edit_path oldContent newContent String.eqb].
    rewrite Hpresent, Htext, strlen_positive.
    by destruct (String.eqb current "").
Qed.

Lemma C8_edit_with_empty_oldContent_witness :
  (readFile "main.tf"
     (executeEditFile {| edit_path := "main.tf"; oldContent := "";
                         newContent := "variable x {}" |} (∅ : MapTree)).2).1
  = Normal (ReadContent "variable x {}")
  /\ executeEditFile {| edit_path := "old.tf"; oldContent := ""; newContent := " y" |}
       ({[ "old.tf" := File "x" ]} : MapTree)
     = (Normal {| success := true; action := Some "appended"; error := None;
                  path := "old.tf" |},
        updateFile "old.tf" "x y" ({[ "old.tf" := File "x" ]} : MapTree)).
Proof.
  split.
  - apply (C8_edit_with_empty_oldContent "main.tf" "variable x {}" (∅ : MapTree)).
    reflexivity.
  - apply (proj2 (C8_edit_with_empty_oldContent "old.tf" " y"
                    ({[ "old.tf" := File "x" ]} : MapTree)) "x"); reflexivity.
Defined.

(** ** The approval gate *)

Section GateFacts.
Context {FileTree : Type} `{FileTreeOps FileTree}.

Implicit Types w : World FileTree.

Lemma length_runs_abortCurrent w : length (runs (abortCurrent w)) = length (runs w).
Proof.
  unfold abortCurrent. destruct (abortRef w); [|reflexivity].
  cbn. apply length_alter.
Qed.

(** What the synchronous part of [runStream] changes. *)
Lemma runStream_frame ms w :
  messages (runStream ms w) = messages w
  /\ pendingApprovals (runStream ms w) = pendingApprovals w
  /\ messagesRef (runStream ms w) = messagesRef w
  /\ fileTree (runStream ms w) = fileTree w
  /\ status (runStream ms w) = Streaming
  /\ abortRef (runStream ms w) = Some (length (runs w))
  /\ trace (runStream ms w) = trace w ++ [CallAgentStream (length (runs w)) ms].
Proof.
  unfold runStream. cbn. rewrite length_runs_abortCurrent.
  unfold abortCurrent. by destruct (abortRef w).
Qed.

Lemma runStream_new_run ms w :
  runs (runStream ms w) !! length (runs w) =
    Some {| aborted := false; coreMessages := ms; phase := AwaitStream;
            currentAssistantId := None; currentText := ""; currentToolCalls := [] |}.
Proof.
  unfold runStream. cbn. rewrite <- (length_runs_abortCurrent w).
  by rewrite lookup_app_r, Nat.sub_diag.
Qed.

(** What recording a result changes. *)
Lemma settle_spec current rest resultValue w :
  pendingApprovals w = current :: rest ->
  pendingApprovals (settle current resultValue w) = rest
  /\ messagesRef (settle current resultValue w)
     = messagesRef w ++ [toolMessageFor current resultValue]
  /\ fileTree (settle current resultValue w) = fileTree w
  /\ status (settle current resultValue w)
     = match rest with [] => Streaming | _ :: _ => status w end
  /\ trace (settle current resultValue w)
     = trace w ++ match rest with
                  | [] => [CallAgentStream (length (runs w))
                             (messagesRef w ++ [toolMessageFor current resultValue])]
                  | _ :: _ => []
                  end.
Proof.
  intros Hq. unfold settle, executePendingTool.
  cbn -[runStream]. rewrite Hq. cbn -[runStream].
  destruct rest as [|next rest]; cbn -[runStream].
  - match goal with |- context [runStream ?ms ?w0] =>
      destruct (runStream_frame ms w0) as (_ & Hp & Hm & Ht & Hst & _ & Htr)
    end.
    rewrite Hp, Hm, Ht, Hst, Htr. by cbn.
  - by rewrite List.app_nil_r.
Qed.

(** The executor never throws, so [approve] always records a result; the
    check and the executor touch nothing of the conversation. *)
Lemma approvedResult_frame current w :
  exists v w1,
    approvedResult current w = (Normal v, w1)
    /\ messages w1 = messages w /\ status w1 = status w
    /\ pendingApprovals w1 = pendingApprovals w
    /\ messagesRef w1 = messagesRef w /\ abortRef w1 = abortRef w
    /\ runs w1 = runs w
    /\ List.filter isAgentStream (trace w1) = List.filter isAgentStream (trace w).
Proof.
  unfold approvedResult, runTool.
  destruct (toolName current).
  - destruct (getProp (args current) "path") as [| | | |p| |];
      try (do 2 eexists; split; [reflexivity|]; by repeat split).
    destruct (getProp (args current) "oldContent") as [| | | |o| |];
      try (do 2 eexists; split; [reflexivity|]; by repeat split).
    destruct (getProp (args current) "newContent") as [| | | |n| |];
      try (do 2 eexists; split; [reflexivity|]; by repeat split).
    cbn [fileTree emit].
    destruct (executeEditFile_returns
                {| edit_path := p; oldContent := o; newContent := n |} (fileTree w))
      as (r & tree' & -> & _).
    do 2 eexists; split; [reflexivity|].
    destruct (succeeded (toolResultValue r)); cbn;
      rewrite ?List.filter_app; cbn; rewrite ?List.app_nil_r; by repeat split.
  - destruct (getProp (args current) "path") as [| | | |p| |];
      try (do 2 eexists; split; [reflexivity|]; by repeat split).
    destruct (Nat.eqb (strlen p) 0);
      [do 2 eexists; split; [reflexivity|]; by repeat split|].
    cbn [fileTree emit].
    destruct (executeDeleteFile_returns p (fileTree w)) as (r & tree' & -> & _).
    do 2 eexists; split; [reflexivity|].
    destruct (succeeded (toolResultValue r)); cbn;
      rewrite ?List.filter_app; cbn; rewrite ?List.app_nil_r; by repeat split.
Qed.

Lemma succeeded_toolResultValue (r : ToolResult) :
  succeeded (toolResultValue r) = success r.
Proof. unfold succeeded, toolResultValue. cbn. by destruct (success r). Qed.

Lemma approvedResult_invalid current w :
  argsValid current = false ->
  exists message,
    approvedResult current w =
      (Normal (failureValue message (stringOrEmpty (getProp (args current) "path"))), w).
Proof.
  unfold argsValid, approvedResult, failureValue.
  destruct (toolName current).
  - destruct (getProp (args current) "path") as [| | | |p| |],
             (getProp (args current) "oldContent") as [| | | |o| |],
             (getProp (args current) "newContent") as [| | | |s| |];
      cbn [isString andb stringOrEmpty]; intros Hbad;
      try discriminate; eexists; reflexivity.
  - destruct (getProp (args current) "path") as [| | | |p| |];
      cbn [isString andb stringOrEmpty negb]; intros Hbad;
      try (eexists; reflexivity).
    destruct (Nat.eqb (strlen p) 0); [eexists; reflexivity|discriminate].
Qed.

Lemma approvedResult_edit current w p o n :
  toolName current = editFile ->
  getProp (args current) "path" = JStr p ->
  getProp (args current) "oldContent" = JStr o ->
  getProp (args current) "newContent" = JStr n ->
  let editArgs := {| edit_path := p; oldContent := o; newContent := n |} in
  exists r tree' w1,
    executeEditFile editArgs (fileTree w) = (Normal r, tree')
    /\ approvedResult current w = (Normal (toolResultValue r), w1)
    /\ fileTree w1 = tree'
    /\ trace w1 = trace w ++ CallExecuteEditFile editArgs
                    :: (if success r then [CallOnFileEdited p] else []).
Proof.
  intros Htool Hp Ho Hn editArgs.
  destruct (executeEditFile_returns editArgs (fileTree w)) as (r & tree' & Hrun & _).
  exists r, tree'.
  unfold approvedResult, runTool. rewrite Htool, Hp, Ho, Hn.
  cbn [fileTree emit]. fold editArgs. rewrite Hrun, succeeded_toolResultValue.
  eexists. split; [reflexivity|]. split; [reflexivity|].
  destruct (success r); cbn; [|by split].
  split; [reflexivity|]. by rewrite <- List.app_assoc.
Qed.

Lemma approvedResult_delete current w p :
  toolName current = deleteFile ->
  getProp (args current) "path" = JStr p ->
  p <> "" ->
  exists r tree' w1,
    executeDeleteFile p (fileTree w) = (Normal r, tree')
    /\ approvedResult current w = (Normal (toolResultValue r), w1)
    /\ fileTree w1 = tree'
    /\ trace w1 = trace w ++ CallExecuteDeleteFile p
                    :: (if success r then [CallOnFileDeleted p] else []).
Proof.
  intros Htool Hp Hne.
  destruct (executeDeleteFile_returns p (fileTree w)) as (r & tree' & Hrun & _).
  exists r, tree'.
  unfold approvedResult, runTool. rewrite Htool, Hp.
  destruct p as [|c p']; [done|]. cbn [strlen String.length Nat.eqb].
  cbn [fileTree emit]. rewrite Hrun, succeeded_toolResultValue.
  eexists. split; [reflexivity|]. split; [reflexivity|].
  destruct (success r); cbn; [|by split].
  split; [reflexivity|]. by rewrite <- List.app_assoc.
Qed.

(** [approve] on a non-empty queue: the head's result is recorded and the
    stream resumes only when nothing is left. *)
Lemma approve_spec current rest w :
  pendingApprovals w = current :: rest ->
  exists v w1,
    approvedResult current w = (Normal v, w1)
    /\ approve w = settle current v w1
    /\ pendingApprovals (approve w) = rest
    /\ messagesRef (approve w) = messagesRef w ++ [toolMessageFor current v]
    /\ fileTree (approve w) = fileTree w1
    /\ status (approve w) = match rest with [] => Streaming | _ :: _ => status w end
    /\ runs w1 = runs w
    /\ List.filter isAgentStream (trace w1) = List.filter isAgentStream (trace w)
    /\ trace (approve w)
       = trace w1 ++ match rest with
                     | [] => [CallAgentStream (length (runs w))
                                (messagesRef w ++ [toolMessageFor current v])]
                     | _ :: _ => []
                     end.
Proof.
  intros Hq.
  destruct (approvedResult_frame current w)
    as (v & w1 & Hres & _ & Hs1 & Hq1 & Hm1 & _ & Hr1 & Hag).
  exists v, w1. split; [exact Hres|].
  assert (Happ : approve w = settle current v w1).
  { unfold approve. by rewrite Hq, Hres. }
  rewrite Hq in Hq1.
  destruct (settle_spec current rest v w1 Hq1) as (Hq2 & Hm2 & Ht2 & Hst2 & Htr2).
  rewrite Happ, Hq2, Hm2, Ht2, Hst2, Htr2, Hm1, Hr1, Hs1. by repeat split.
Qed.

End GateFacts.

Lemma filter_app_singleton_false {A} (f : A -> bool) (l : list A) (x : A) :
  f x = false -> List.filter f (l ++ [x]) = List.filter f l.
Proof. intros Hx. rewrite List.filter_app. cbn. rewrite Hx. apply List.app_nil_r. Qed.

(** C5: rejecting the head of a non-empty queue records the synthesized
    error "User rejected this action." as its tool result, calls no
    executor (the only call that may leave the hook is the resumption of
    the stream once the queue is empty) and leaves the file tree as it was. *)
Theorem C5_reject_never_executes {FileTree : Type} `{FileTreeOps FileTree}
    (w : World FileTree) (current : PendingToolCall) (rest : list PendingToolCall) :
  pendingApprovals w = current :: rest ->
  fileTree (reject w) = fileTree w
  /\ List.filter isExecutorCall (trace (reject w)) = List.filter isExecutorCall (trace w)
  /\ messagesRef (reject w)
     = messagesRef w
       ++ [ToolMessage
             [{| trp_toolCallId := toolCallId current;
                 trp_toolName := approvalToolName (toolName current);
                 trp_output := JsonOutput (JObj [("error", JStr "User rejected this action.")]) |}]]
  /\ pendingApprovals (reject w) = rest.
Proof.
  intros Hq. unfold reject. rewrite Hq.
  destruct (settle_spec current rest rejectionResult w Hq) as (Hq' & Hm & Ht & _ & Htr).
  rewrite Hq', Hm, Ht, Htr. repeat split.
  destruct rest; [by apply filter_app_singleton_false|by rewrite List.app_nil_r].
Qed.

(** ** Parallel approvals *)

Section QueueFacts.
Context {FileTree : Type} `{FileTreeOps FileTree}.

Implicit Types w : World FileTree.





Lemma approve_executor_calls w current rest :
  pendingApprovals w = current :: rest ->
  List.filter isExecutorCall (trace (approve w))
  = List.filter isExecutorCall (trace w) ++ executorCallsOf current.
Proof.
  intros Hq.
  destruct (approve_spec current rest w Hq)
    as (v & w1 & Hres & _ & _ & _ & _ & _ & _ & _ & ->).
  assert (Hw1 : List.filter isExecutorCall (trace w1)
                = List.filter isExecutorCall (trace w) ++ executorCallsOf current).
  { unfold executorCallsOf.
    destruct (toolName current) eqn:Htool.
    - destruct (getProp (args current) "path") as [| | | |p| |] eqn:Hp,
               (getProp (args current) "oldContent") as [| | | |o| |] eqn:Ho,
               (getProp (args current) "newContent") as [| | | |s| |] eqn:Hn;
        try (destruct (approvedResult_invalid current w) as (message & Hbad);
             [unfold argsValid; rewrite Htool, Hp, Ho, Hn; reflexivity|];
             rewrite Hbad in Hres; injection Hres as _ <-;
             by rewrite List.app_nil_r).
      destruct (approvedResult_edit current w p o s Htool Hp Ho Hn)
        as (r & tree' & w1' & _ & Hres' & _ & Htr).
      rewrite Hres' in Hres. injection Hres as _ <-. rewrite Htr.
      rewrite List.filter_app. by destruct (success r).
    - destruct (getProp (args current) "path") as [| | | |p| |] eqn:Hp;
        try (destruct (approvedResult_invalid current w) as (message & Hbad);
             [unfold argsValid; rewrite Htool, Hp; reflexivity|];
             rewrite Hbad in Hres; injection Hres as _ <-;
             by rewrite List.app_nil_r).
      destruct (String.eqb_spec p "") as [->|Hne].
      + destruct (approvedResult_invalid current w) as (message & Hbad);
          [unfold argsValid; rewrite Htool, Hp; reflexivity|].
        rewrite Hbad in Hres. injection Hres as _ <-. by rewrite List.app_nil_r.
      + destruct (approvedResult_delete current w p Htool Hp Hne)
          as (r & tree' & w1' & _ & Hres' & _ & Htr).
        rewrite Hres' in Hres. injection Hres as _ <-. rewrite Htr.
        rewrite List.filter_app. by destruct (success r). }
  rewrite List.filter_app, Hw1.
  destruct rest; cbn; by rewrite List.app_nil_r.
Qed.




End QueueFacts.


(** C3: [approve] checks the shape of the arguments of the head of the
    queue before anything runs.  Arguments that fail the check yield the
    failure value [{success: false, error, path}] as the tool result
    without any executor call and without touching the tree; arguments
    that pass are handed to the executor within the same call, and its
    return value is the tool result. *)
Theorem C3_approve_revalidates {FileTree : Type} `{FileTreeOps FileTree}
    (w : World FileTree) (current : PendingToolCall) (rest : list PendingToolCall) :
  pendingApprovals w = current :: rest ->
  (argsValid current = false ->
     exists message,
       messagesRef (approve w)
       = messagesRef w
         ++ [toolMessageFor current
               (failureValue message (stringOrEmpty (getProp (args current) "path")))]
       /\ fileTree (approve w) = fileTree w
       /\ List.filter isExecutorCall (trace (approve w))
          = List.filter isExecutorCall (trace w))
  /\ (forall p o n,
        toolName current = editFile ->
        getProp (args current) "path" = JStr p ->
        getProp (args current) "oldContent" = JStr o ->
        getProp (args current) "newContent" = JStr n ->
        let editArgs := {| edit_path := p; oldContent := o; newContent := n |} in
        exists r tree',
          executeEditFile editArgs (fileTree w) = (Normal r, tree')
          /\ fileTree (approve w) = tree'
          /\ List.filter isExecutorCall (trace (approve w))
             = List.filter isExecutorCall (trace w) ++ [CallExecuteEditFile editArgs]
          /\ messagesRef (approve w)
             = messagesRef w ++ [toolMessageFor current (toolResultValue r)])
  /\ (forall p,
        toolName current = deleteFile ->
        getProp (args current) "path" = JStr p ->
        p <> "" ->
        exists r tree',
          executeDeleteFile p (fileTree w) = (Normal r, tree')
          /\ fileTree (approve w) = tree'
          /\ List.filter isExecutorCall (trace (approve w))
             = List.filter isExecutorCall (trace w) ++ [CallExecuteDeleteFile p]
          /\ messagesRef (approve w)
             = messagesRef w ++ [toolMessageFor current (toolResultValue r)]).
Proof.
  intros Hq.
  destruct (approve_spec current rest w Hq)
    as (v & w1 & Hres & _ & _ & Hm & Ht & _ & _ & _ & _).
  pose proof (approve_executor_calls w current rest Hq) as Hcalls.
  split; [|split].
  - intros Hbad. destruct (approvedResult_invalid current w Hbad) as (message & Hinv).
    rewrite Hinv in Hres. injection Hres as <- <-.
    exists message. split; [exact Hm|]. split; [exact Ht|].
    rewrite Hcalls. unfold executorCallsOf, argsValid in *.
    destruct (toolName current).
    + destruct (getProp (args current) "path") as [| | | |p| |],
               (getProp (args current) "oldContent") as [| | | |o| |],
               (getProp (args current) "newContent") as [| | | |s| |];
        try (by rewrite List.app_nil_r). discriminate.
    + destruct (getProp (args current) "path") as [| | | |p| |];
        try (by rewrite List.app_nil_r).
      destruct p; [by rewrite List.app_nil_r|discriminate].
  - intros p o n Htool Hp Ho Hn editArgs.
    destruct (approvedResult_edit current w p o n Htool Hp Ho Hn)
      as (r & tree' & w1' & Hrun & Hres' & Htree & _).
    rewrite Hres' in Hres. injection Hres as <- <-.
    exists r, tree'. split; [exact Hrun|]. split; [congruence|].
    split; [|exact Hm].
    rewrite Hcalls. unfold executorCallsOf. by rewrite Htool, Hp, Ho, Hn.
  - intros p Htool Hp Hne.
    destruct (approvedResult_delete current w p Htool Hp Hne)
      as (r & tree' & w1' & Hrun & Hres' & Htree & _).
    rewrite Hres' in Hres. injection Hres as <- <-.
    exists r, tree'. split; [exact Hrun|]. split; [congruence|].
    split; [|exact Hm].
    rewrite Hcalls. unfold executorCallsOf. rewrite Htool, Hp.
    by destruct (String.eqb_spec p "").
Qed.

(** ** Cancellation *)

Section CancelFacts.
Context {FileTree : Type} `{FileTreeOps FileTree}.

Implicit Types w : World FileTree.

Lemma lookup_suspend w c c' p r :
  c' < length (runs w) ->
  runs (suspend c' p r w) !! c
  = if decide (c' = c) then Some (withPhase p r) else runs w !! c.
Proof.
  intros Hlt. unfold suspend. cbn.
  destruct (decide (c' = c)) as [->|Hne].
  - by apply list_lookup_insert_eq.
  - by apply list_lookup_insert_ne.
Qed.

(** An event of a cancelled invocation changes neither the history, nor
    the transcript, nor the queue, nor the tree. *)
Lemma deliver_cancelled w c ev :
  cancelled c w ->
  cancelled c (deliver c ev w)
  /\ messagesRef (deliver c ev w) = messagesRef w
  /\ messages (deliver c ev w) = messages w
  /\ pendingApprovals (deliver c ev w) = pendingApprovals w
  /\ fileTree (deliver c ev w) = fileTree w
  /\ trace (deliver c ev w) = trace w.
Proof.
  intros Hc. pose proof Hc as (r & Hrun & Hab & Hph).
  assert (Hlt : c < length (runs w)) by (by eapply lookup_lt_Some).
  assert (Hkeep : forall p w0, runs w0 = runs w -> p <> AwaitSteps ->
            cancelled c (suspend c p r w0)).
  { intros p w0 Hruns Hp. exists (withPhase p r).
    rewrite lookup_suspend, decide_True by (rewrite ?Hruns; done). by repeat split. }
  unfold deliver. rewrite Hrun.
  destruct (phase r) eqn:Hphase; try done;
    destruct ev as [| |part| | |steps|]; try (split; [exact Hc|by repeat split]);
    unfold onPart, onStreamError, onAborted; rewrite ?Hab;
    (split; [by apply Hkeep|by repeat split]).
Qed.

Lemma lookup_abortCurrent w c r :
  runs w !! c = Some r ->
  exists r', runs (abortCurrent w) !! c = Some r'
             /\ phase r' = phase r /\ (aborted r = true -> aborted r' = true).
Proof.
  intros Hrun. unfold abortCurrent. destruct (abortRef w) as [c0|]; [|by exists r].
  cbn. destruct (decide (c0 = c)) as [->|Hne].
  - exists (withAborted r). by rewrite list_lookup_alter_eq, Hrun.
  - exists r. by rewrite list_lookup_alter_ne.
Qed.

Lemma cancelled_abortCurrent w c : cancelled c w -> cancelled c (abortCurrent w).
Proof.
  intros (r & Hrun & Hab & Hph).
  destruct (lookup_abortCurrent w c r Hrun) as (r' & Hrun' & Hph' & Hab').
  exists r'. split; [exact Hrun'|]. split; [by apply Hab'|congruence].
Qed.

Lemma cancelled_runStream w c ms : cancelled c w -> cancelled c (runStream ms w).
Proof.
  intros Hc. apply cancelled_abortCurrent in Hc as (r & Hrun & Hab & Hph).
  exists r. split; [|by split].
  unfold runStream. cbn. by apply lookup_app_l_Some.
Qed.

(** Only the runs matter for being cancelled. *)
Lemma cancelled_same_runs w w' c : runs w' = runs w -> cancelled c w -> cancelled c w'.
Proof. intros Hruns (r & Hrun & Hrest). exists r. by rewrite Hruns. Qed.

Lemma cancelled_settle w c current v : cancelled c w -> cancelled c (settle current v w).
Proof.
  intros Hc. unfold settle, executePendingTool. cbn -[runStream].
  case_match.
  - apply (cancelled_same_runs w); [done|exact Hc].
  - apply cancelled_runStream. apply (cancelled_same_runs w); [done|exact Hc].
Qed.

Lemma deliver_other w c c' ev r :
  c' <> c -> runs w !! c = Some r -> runs (deliver c' ev w) !! c = Some r.
Proof.
  intros Hne Hrun. unfold deliver.
  destruct (runs w !! c') as [r'|] eqn:Hrun'; [|exact Hrun].
  assert (Hlt : c' < length (runs w)) by (by eapply lookup_lt_Some).
  assert (Hsus : forall p r0 w0, runs w0 = runs w -> runs (suspend c' p r0 w0) !! c = Some r).
  { intros p r0 w0 Hruns.
    rewrite lookup_suspend, decide_False by (rewrite ?Hruns; done). by rewrite Hruns. }
  assert (Hrefresh : forall r0 w0, runs w0 = runs w ->
            runs (refreshAssistantMessage r0 w0).2 = runs w).
  { intros r0 w0 Hruns. unfold refreshAssistantMessage.
    by destruct (currentAssistantId r0). }
  destruct (phase r'), ev as [| |part| | |steps|]; try exact Hrun; try (by apply Hsus).
  - unfold onPart. destruct (aborted r'); [by apply Hsus|].
    destruct part as [text|id name input|id output| |]; try (by apply Hsus).
    + destruct (refreshAssistantMessage _ w) as [r1 w1] eqn:Href.
      apply Hsus. change w1 with (r1, w1).2. rewrite <- Href. by apply Hrefresh.
    + destruct (getToolCallArgs _); [|unfold onStreamError; by destruct (aborted r'); apply Hsus].
      destruct (refreshAssistantMessage _ w) as [r1 w1] eqn:Href.
      apply Hsus. change w1 with (r1, w1).2. rewrite <- Href. by apply Hrefresh.
    + destruct (refreshAssistantMessage _ w) as [r1 w1] eqn:Href.
      apply Hsus. change w1 with (r1, w1).2. rewrite <- Href. by apply Hrefresh.
  - unfold onStreamError. by destruct (aborted r'); apply Hsus.
  - destruct (aborted r'); by apply Hsus.
  - unfold onSteps. destruct (reconcile steps); [|by apply Hsus].
    destruct (getPendingToolCalls steps) as [q|]; [|by apply Hsus].
    by destruct (Nat.ltb 0 (length q)); apply Hsus.
Qed.

(** No event of the backend touches the file tree or calls out of the hook. *)
Lemma deliver_frame w c ev :
  fileTree (deliver c ev w) = fileTree w /\ trace (deliver c ev w) = trace w.
Proof.
  unfold deliver.
  destruct (runs w !! c) as [r|]; [|done].
  assert (Hrefresh : forall r0 w0,
            fileTree (refreshAssistantMessage r0 w0).2 = fileTree w0
            /\ trace (refreshAssistantMessage r0 w0).2 = trace w0).
  { intros r0 w0. unfold refreshAssistantMessage. by destruct (currentAssistantId r0). }
  destruct (phase r), ev as [| |part| | |steps|]; try done.
  - unfold onPart, onAborted, onStreamError. destruct (aborted r); [done|].
    destruct part as [text|id name input|id output| |]; try done.
    + destruct (refreshAssistantMessage _ w) as [r1 w1] eqn:Href.
      change w1 with (r1, w1).2. rewrite <- Href. apply Hrefresh.
    + destruct (getToolCallArgs _); [|done].
      destruct (refreshAssistantMessage _ w) as [r1 w1] eqn:Href.
      change w1 with (r1, w1).2. rewrite <- Href. apply Hrefresh.
    + destruct (refreshAssistantMessage _ w) as [r1 w1] eqn:Href.
      change w1 with (r1, w1).2. rewrite <- Href. apply Hrefresh.
  - unfold onStreamError. by destruct (aborted r).
  - unfold onAborted. by destruct (aborted r).
  - unfold onSteps. destruct (reconcile steps); [|done].
    destruct (getPendingToolCalls steps) as [q|]; [|done].
    by destruct (Nat.ltb 0 (length q)).
Qed.

(** Once cancelled, an invocation stays cancelled whatever the UI and the
    backend do next. *)
Lemma cancelled_step w c a : cancelled c w -> cancelled c (step a w).
Proof.
  intros Hc. destruct a as [text| | | | |c' ev]; cbn [step].
  - unfold send. destruct (status w); try exact Hc;
      (destruct (abortRef w); [exact Hc|]);
      (destruct (String.eqb (trim text) ""); [exact Hc|]);
      apply cancelled_runStream; (apply (cancelled_same_runs w); [done|exact Hc]).
  - unfold approve. destruct (pendingApprovals w) as [|current rest]; [exact Hc|].
    destruct (approvedResult_frame current w) as (v & w1 & -> & _ & _ & _ & _ & _ & Hruns & _).
    apply cancelled_settle. apply (cancelled_same_runs w); [done|exact Hc].
  - unfold reject. destruct (pendingApprovals w) as [|current rest]; [exact Hc|].
    by apply cancelled_settle.
  - unfold stop. apply (cancelled_same_runs (abortCurrent w)); [done|by apply cancelled_abortCurrent].
  - unfold reset. apply (cancelled_same_runs (abortCurrent w)); [done|by apply cancelled_abortCurrent].
  - destruct (decide (c' = c)) as [->|Hne]; [by apply deliver_cancelled|].
    destruct Hc as (r & Hrun & Hrest). exists r. split; [|exact Hrest].
    by apply deliver_other.
Qed.

Lemma perform_cons a actions w : perform (a :: actions) w = perform actions (step a w).
Proof. reflexivity. Qed.

Lemma cancelled_perform actions w c : cancelled c w -> cancelled c (perform actions w).
Proof.
  revert w. induction actions as [|a actions IH]; intros w Hc; [exact Hc|].
  rewrite perform_cons. apply IH. by apply cancelled_step.
Qed.

(** The events of a cancelled invocation, delivered in a row, leave the
    history, the transcript and the queue as they were. *)
Lemma perform_cancelled_events w c evs :
  cancelled c w ->
  messagesRef (perform (Backend c <$> evs) w) = messagesRef w
  /\ messages (perform (Backend c <$> evs) w) = messages w
  /\ pendingApprovals (perform (Backend c <$> evs) w) = pendingApprovals w.
Proof.
  revert w. induction evs as [|ev evs IH]; intros w Hc; [done|].
  rewrite fmap_cons, perform_cons. cbn [step].
  destruct (deliver_cancelled w c ev Hc) as (Hc' & Hm & Hd & Hq & _).
  destruct (IH _ Hc') as (-> & -> & ->). by rewrite Hm, Hd, Hq.
Qed.

(** [stop] and [reset] cancel the stream that is in flight. *)
Lemma cancelled_after_abort w c r :
  abortRef w = Some c -> runs w !! c = Some r -> inFlight r ->
  runs (abortCurrent w) !! c = Some (withAborted r) /\ cancelled c (abortCurrent w).
Proof.
  intros Href Hrun Hfl.
  assert (Hlook : runs (abortCurrent w) !! c = Some (withAborted r)).
  { unfold abortCurrent. rewrite Href. cbn. by rewrite list_lookup_alter_eq, Hrun. }
  split; [exact Hlook|].
  exists (withAborted r). split; [exact Hlook|]. split; [reflexivity|].
  cbn. destruct Hfl as [-> | ->]; done.
Qed.

End CancelFacts.

(** ** The public state machine *)

(** The scenario of a single edit: the user asks, the model calls
    [editFile], the hook waits for the approval, and approving creates the
    file and resumes the stream. *)
Example scenario_add_a_var :
  let asked : World MapTree :=
    perform [Send "add a var"; Backend 0 StreamOpened;
             Backend 0 (Yield (PartToolCall "call-1" "editFile" createArgs));
             Backend 0 (Yield PartFinishStep); Backend 0 IteratorDone;
             Backend 0 (StepsResolved
                          [{| step_text := "";
                              step_toolCalls :=
                                [{| stc_toolCallId := "call-1"; stc_toolName := "editFile";
                                    stc_input := createArgs; stc_args := JUndefined |}];
                              step_toolResults := [] |}])]
      (initial ∅) in
  status asked = AwaitingApproval
  /\ (toolCallId <$> pendingApproval asked) = Some "call-1"
  /\ fileTree (approve asked) = {[ "main.tf" := File "variable x {}" ]}
  /\ status (approve asked) = Streaming
  /\ pendingApproval (approve asked) = None.
Proof. vm_compute. by repeat split. Qed.

(** C4 (as stated, refuted): in status [error] a [send] is not rejected; it
    appends the user message to the history and starts a new stream. *)
Lemma C4_send_from_error_counterexample :
  status failedTurn = Error
  /\ messagesRef (send "try again" failedTurn) <> messagesRef failedTurn
  /\ status (send "try again" failedTurn) <> status failedTurn
  /\ trace (send "try again" failedTurn)
     = trace failedTurn
       ++ [CallAgentStream 1 [UserMessage "add a var"; UserMessage "try again"]].
Proof. vm_compute. repeat split; discriminate. Qed.

(** C4 (amended): [send] is a no-op while the status is [streaming] or
    [awaiting_approval]: the whole state, with the history, the queue, the
    status and the calls made so far, stays as it was.  From [error], where
    no cancellation handle is registered, a non-blank text is accepted: the
    user message is appended and a new stream is started. *)
Theorem C4_send_guard {FileTree : Type} `{FileTreeOps FileTree}
    (w : World FileTree) (text : string) :
  (status w = Streaming \/ status w = AwaitingApproval -> send text w = w)
  /\ (status w = Error -> abortRef w = None -> trim text <> "" ->
      messagesRef (send text w) = messagesRef w ++ [UserMessage (trim text)]
      /\ pendingApprovals (send text w) = pendingApprovals w
      /\ status (send text w) = Streaming
      /\ trace (send text w)
         = trace w ++ [CallAgentStream (length (runs w))
                         (messagesRef w ++ [UserMessage (trim text)])]).
Proof.
  split.
  - unfold send. by intros [-> | ->].
  - intros Hst Href Htext. unfold send. rewrite Hst, Href.
    destruct (String.eqb_spec (trim text) "") as [|_]; [done|].
    match goal with |- context [runStream ?ms ?w0] =>
      destruct (runStream_frame ms w0) as (_ & -> & -> & _ & -> & _ & ->)
    end.
    by cbn.
Qed.

Lemma C4_send_guard_witness :
  send "more" awaitingTwo = awaitingTwo
  /\ messagesRef (send "try again" failedTurn)
     = messagesRef failedTurn ++ [UserMessage (trim "try again")].
Proof.
  split.
  - apply (C4_send_guard awaitingTwo "more"). right. reflexivity.
  - apply (C4_send_guard failedTurn "try again"); [reflexivity|reflexivity|].
    vm_compute. discriminate.
Defined.

(** The status [error] never coexists with a registered cancellation
    handle, so the guard on [abortRef] does not reject a [send] there. *)
Lemma error_without_handle {FileTree : Type} `{FileTreeOps FileTree}
    (tree : FileTree) (actions : list Action) :
  status (perform actions (initial tree)) = Error ->
  abortRef (perform actions (initial tree)) = None.
Proof.
  assert (Hstep : forall (w : World FileTree) a,
            (status w = Error -> abortRef w = None) ->
            status (step a w) = Error -> abortRef (step a w) = None).
  { intros w a Hinv. destruct a as [text| | | | |c ev]; cbn [step].
    - unfold send.
      destruct (status w) eqn:Hs; try (rewrite ?Hs; exact Hinv);
        (destruct (abortRef w) eqn:Ha; [rewrite ?Hs, ?Ha; exact Hinv|]);
        (destruct (String.eqb (trim text) ""); [rewrite ?Hs, ?Ha; exact Hinv|]);
        match goal with |- context [runStream ?ms ?w0] =>
          destruct (runStream_frame ms w0) as (_ & _ & _ & _ & -> & _)
        end; discriminate.
    - destruct (pendingApprovals w) as [|current rest] eqn:Hq;
        [unfold approve; by rewrite Hq|].
      destruct (approve_spec current rest w Hq)
        as (v & w1 & Hres & Happ & _ & _ & _ & Hst & _).
      rewrite Hst. destruct rest; [discriminate|].
      intros Herr. rewrite Happ. unfold settle, executePendingTool. cbn -[runStream].
      destruct (approvedResult_frame current w)
        as (v' & w1' & Hres' & _ & _ & Hq1 & _ & Ha1 & _).
      rewrite Hres' in Hres. injection Hres as _ <-.
      rewrite Hq1, Hq. cbn. rewrite Ha1. by apply Hinv.
    - unfold reject. destruct (pendingApprovals w) as [|current rest] eqn:Hq; [exact Hinv|].
      destruct (settle_spec current rest rejectionResult w Hq) as (_ & _ & _ & Hst & _).
      rewrite Hst. destruct rest; [discriminate|].
      intros Herr. unfold settle, executePendingTool. cbn -[runStream].
      rewrite Hq. cbn. by apply Hinv.
    - discriminate.
    - discriminate.
    - unfold deliver. destruct (runs w !! c) as [r|]; [|exact Hinv].
      destruct (phase r), ev as [| |part| | |steps|]; try exact Hinv; try done.
      + unfold onPart. destruct (aborted r); [done|].
        destruct part as [text|id name input|id output| |]; try exact Hinv.
        * destruct (refreshAssistantMessage _ w) as [r1 w1] eqn:Href.
          unfold refreshAssistantMessage in Href.
          destruct (currentAssistantId _); injection Href as _ <-; exact Hinv.
        * destruct (getToolCallArgs _); [|done].
          destruct (refreshAssistantMessage _ w) as [r1 w1] eqn:Href.
          unfold refreshAssistantMessage in Href.
          destruct (currentAssistantId _); injection Href as _ <-; exact Hinv.
        * destruct (refreshAssistantMessage _ w) as [r1 w1] eqn:Href.
          unfold refreshAssistantMessage in Href.
          destruct (currentAssistantId _); injection Href as _ <-; exact Hinv.
      + unfold onStreamError. by destruct (aborted r).
      + unfold onSteps. destruct (reconcile steps); [|exact Hinv].
        destruct (getPendingToolCalls steps) as [q|]; [|exact Hinv].
        by destruct (Nat.ltb 0 (length q)). }
  induction actions as [|a actions IH] using rev_ind; [discriminate|].
  unfold perform in *. rewrite foldl_app. cbn [foldl]. by apply Hstep.
Qed.

(** Where cancellation works: when [abortRef] holds the controller of a
    stream that waits to be opened or waits for its next part, [stop]
    aborts it and sets the status to [idle]; the history stays what it was
    when the turn started, and no event of the cancelled stream changes it
    afterwards, whatever happens in between; a [send] that follows starts
    a fresh invocation on that history extended by the new user message. *)
Theorem stop_cancels_registered_stream {FileTree : Type} `{FileTreeOps FileTree}
    (w : World FileTree) (c : nat) (r : Run) :
  status w = Streaming ->
  abortRef w = Some c ->
  runs w !! c = Some r ->
  inFlight r ->
  status (stop w) = Idle
  /\ abortRef (stop w) = None
  /\ runs (stop w) !! c = Some (withAborted r)
  /\ messagesRef (stop w) = messagesRef w
  /\ (forall evs, messagesRef (perform (Backend c <$> evs) (stop w)) = messagesRef w)
  /\ (forall actions ev,
        messagesRef (deliver c ev (perform actions (stop w)))
        = messagesRef (perform actions (stop w)))
  /\ (forall text, trim text <> "" ->
        messagesRef (send text (stop w)) = messagesRef w ++ [UserMessage (trim text)]
        /\ status (send text (stop w)) = Streaming
        /\ abortRef (send text (stop w)) = Some (length (runs w))
        /\ runs (send text (stop w)) !! length (runs w)
           = Some {| aborted := false;
                     coreMessages := messagesRef w ++ [UserMessage (trim text)];
                     phase := AwaitStream; currentAssistantId := None;
                     currentText := ""; currentToolCalls := [] |}
        /\ trace (send text (stop w))
           = trace w ++ [CallAgentStream (length (runs w))
                           (messagesRef w ++ [UserMessage (trim text)])]).
Proof.
  intros Hst Href Hrun Hfl.
  destruct (cancelled_after_abort w c r Href Hrun Hfl) as (Hlook & Hcan).
  assert (Hcan' : cancelled c (stop w)).
  { apply (cancelled_same_runs (abortCurrent w)); [done|exact Hcan]. }
  split; [reflexivity|]. split; [reflexivity|]. split; [exact Hlook|].
  assert (Hm : messagesRef (stop w) = messagesRef w).
  { unfold stop, abortCurrent. rewrite Href. reflexivity. }
  split; [exact Hm|]. split; [|split].
  - intros evs. destruct (perform_cancelled_events (stop w) c evs Hcan') as (-> & _).
    exact Hm.
  - intros actions ev.
    by destruct (deliver_cancelled _ c ev (cancelled_perform actions _ c Hcan')) as (_ & -> & _).
  - intros text Htext. unfold send.
    change (status (stop w)) with Idle. change (abortRef (stop w)) with (@None nat).
    cbv iota.
    destruct (String.eqb_spec (trim text) "") as [|_]; [done|].
    match goal with |- context [runStream ?ms ?w0] => set (w0' := w0); set (ms0 := ms) end.
    destruct (runStream_frame ms0 w0') as (_ & _ & Hm1 & _ & Hs1 & Ha1 & Ht1).
    pose proof (runStream_new_run ms0 w0') as Hnew.
    assert (Hlen : length (runs w0') = length (runs w)).
    { subst w0'. cbn. apply length_runs_abortCurrent. }
    assert (Hms : ms0 = messagesRef w ++ [UserMessage (trim text)]).
    { subst ms0. by rewrite Hm. }
    assert (Htr : trace w0' = trace w).
    { subst w0'. unfold stop, abortCurrent. by destruct (abortRef w). }
    rewrite Hm1, Hs1, Ha1, Ht1, Htr. rewrite Hlen in Hnew |- *. rewrite Hms in Hnew |- *.
    by repeat split.
Qed.

Lemma stop_cancels_registered_stream_witness :
  status (stop midStream) = Idle
  /\ messagesRef (send "rename it" (stop midStream))
     = [UserMessage "add a var"; UserMessage "rename it"]
  /\ messagesRef
       (perform [Backend 0 (Yield (PartTextDelta " the variable")); Backend 0 IteratorDone]
          (stop midStream))
     = [UserMessage "add a var"].
Proof.
  pose proof (stop_cancels_registered_stream midStream 0
                {| aborted := false; coreMessages := [UserMessage "add a var"];
                   phase := Consuming; currentAssistantId := Some 2;
                   currentText := "Adding"; currentToolCalls := [] |}
                eq_refl eq_refl eq_refl (or_intror eq_refl))
    as (Hidle & _ & _ & _ & Hevents & _ & Hsend).
  split; [exact Hidle|]. split.
  - apply (Hsend "rename it"). vm_compute. discriminate.
  - exact (Hevents [Yield (PartTextDelta " the variable"); IteratorDone]).
Defined.

(** What [reset] does at once, and where its cancellation works: it
    yields status [idle], an empty transcript, an empty history, an empty
    queue and no pending approval from every state; the controller held by
    [abortRef] is aborted, and if its stream waits to be opened or waits
    for its next part, the late events of that stream leave transcript,
    history and queue empty. *)
Theorem reset_clears_conversation {FileTree : Type} `{FileTreeOps FileTree}
    (w : World FileTree) :
  status (reset w) = Idle
  /\ messages (reset w) = []
  /\ pendingApproval (reset w) = None
  /\ pendingApprovals (reset w) = []
  /\ messagesRef (reset w) = []
  /\ abortRef (reset w) = None
  /\ (forall c r, abortRef w = Some c -> runs w !! c = Some r ->
        runs (reset w) !! c = Some (withAborted r))
  /\ (forall c r evs, abortRef w = Some c -> runs w !! c = Some r -> inFlight r ->
        messages (perform (Backend c <$> evs) (reset w)) = []
        /\ messagesRef (perform (Backend c <$> evs) (reset w)) = []
        /\ pendingApprovals (perform (Backend c <$> evs) (reset w)) = []).
Proof.
  repeat (split; [reflexivity|]). split.
  - intros c r Href Hrun. unfold reset, abortCurrent. rewrite Href. cbn.
    by rewrite list_lookup_alter_eq, Hrun.
  - intros c r evs Href Hrun Hfl.
    destruct (cancelled_after_abort w c r Href Hrun Hfl) as (_ & Hcan).
    assert (Hcan' : cancelled c (reset w)).
    { apply (cancelled_same_runs (abortCurrent w)); [done|exact Hcan]. }
    by destruct (perform_cancelled_events (reset w) c evs Hcan') as (-> & -> & ->).
Qed.

Lemma reset_clears_conversation_witness :
  status (reset midStream) = Idle
  /\ messages (perform [Backend 0 (Yield (PartTextDelta " the variable"))]
                 (reset midStream)) = []
  /\ pendingApproval (reset awaitingTwo) = None.
Proof.
  pose proof (reset_clears_conversation midStream)
    as (Hidle & _ & _ & _ & _ & _ & _ & Hlate).
  split; [exact Hidle|]. split.
  - apply (Hlate 0 {| aborted := false; coreMessages := [UserMessage "add a var"];
                      phase := Consuming; currentAssistantId := Some 2;
                      currentText := "Adding"; currentToolCalls := [] |}
             [Yield (PartTextDelta " the variable")] eq_refl eq_refl (or_intror eq_refl)).
  - apply (reset_clears_conversation awaitingTwo).
Defined.

(** C6: [stop] during status [streaming] does not always cancel the turn.
    (1) When the stream has been read to its end and [runStream] awaits
    the step summary, [stop] sets the status to [idle], but the summary is
    reconciled all the same: the history gains the assistant message of
    the stopped turn, its tool call is queued, the status becomes
    [awaiting_approval], and the next [send] is dropped.
    (2) When [stop] comes while the stream is being opened and opening
    then fails, the status ends as [error], not [idle].
    (3) A stream whose handle was cleared by an earlier, stopped
    invocation is not aborted by [stop]; when it ends, it replaces the
    history, dropping the user message sent last. *)
Theorem C6_stop_misses_late_turn :
  (status streamRead = Streaming
   /\ abortRef streamRead = Some 0
   /\ messagesRef streamRead = [UserMessage "add a var"]
   /\ status (stop streamRead) = Idle
   /\ let late := deliver 0 (StepsResolved [streamedStep]) (stop streamRead) in
      status late = AwaitingApproval
      /\ messagesRef late
         = [UserMessage "add a var";
            AssistantMessage [TextPart "Adding";
                              ToolCallPart "call-1" "editFile" createArgs]]
      /\ toolCallId <$> pendingApprovals late = ["call-1"]
      /\ send "rename it" late = late)
  /\ (let opening := send "add a var" (initial startTree) in
      status opening = Streaming
      /\ abortRef opening = Some 0
      /\ status (stop opening) = Idle
      /\ status (deliver 0 StreamRejected (stop opening)) = Error)
  /\ (let third := send "and a test" orphanedStream in
      status third = Streaming
      /\ abortRef third = Some 2
      /\ messagesRef third
         = [UserMessage "add a var"; UserMessage "rename it"; UserMessage "and a test"]
      /\ aborted <$> runs (stop third) = [true; false; true]
      /\ messagesRef (perform renamingTurn (stop third))
         = [UserMessage "add a var"; UserMessage "rename it";
            AssistantMessage [TextPart "Renaming"]]).
Proof. vm_compute. repeat split. Qed.

(** C7: [reset] does not cancel every stream in flight.
    (1) When [runStream] awaits the step summary, [reset] empties the
    transcript, the history and the queue, but the summary is reconciled
    all the same: the history and the queue are filled again and the
    status becomes [awaiting_approval].
    (2) A stream whose handle was cleared by an earlier, stopped
    invocation is not aborted by [reset]; what it delivers afterwards
    fills the transcript and the history again. *)
Theorem C7_reset_misses_late_turn :
  (status streamRead = Streaming
   /\ let w := reset streamRead in
      status w = Idle /\ messages w = [] /\ messagesRef w = []
      /\ pendingApproval w = None
      /\ aborted <$> runs w = [true]
      /\ let late := deliver 0 (StepsResolved [streamedStep]) w in
         status late = AwaitingApproval
         /\ messagesRef late
            = [UserMessage "add a var";
               AssistantMessage [TextPart "Adding";
                                 ToolCallPart "call-1" "editFile" createArgs]]
         /\ toolCallId <$> pendingApprovals late = ["call-1"])
  /\ (status orphanedStream = Idle
      /\ abortRef orphanedStream = None
      /\ phase <$> runs orphanedStream = [Returned; AwaitStream]
      /\ let w := reset orphanedStream in
         status w = Idle /\ messages w = [] /\ messagesRef w = []
         /\ aborted <$> runs w = [true; false]
         /\ let late := perform renamingTurn w in
            dm_content <$> messages late = ["Renaming"]
            /\ messagesRef late
               = [UserMessage "add a var"; UserMessage "rename it";
                  AssistantMessage [TextPart "Renaming"]]).
Proof. vm_compute. repeat split. Qed.

(** C10: [stop] changes the status (to [idle]), clears [abortRef] and
    aborts the controller it held; transcript, history, queue, exposed
    pending approval, tree and calls made stay as they were.  Stopping
    while approvals are awaited leaves the queue non-empty under status
    [idle]; [reset] is what empties it. *)
Theorem C10_stop_frame {FileTree : Type} `{FileTreeOps FileTree} (w : World FileTree) :
  status (stop w) = Idle
  /\ abortRef (stop w) = None
  /\ runs (stop w) = match abortRef w with
                     | Some c => alter withAborted c (runs w)
                     | None => runs w
                     end
  /\ messages (stop w) = messages w
  /\ messagesRef (stop w) = messagesRef w
  /\ pendingApprovals (stop w) = pendingApprovals w
  /\ pendingApproval (stop w) = pendingApproval w
  /\ messageCounter (stop w) = messageCounter w
  /\ fileTree (stop w) = fileTree w
  /\ trace (stop w) = trace w
  /\ (status w = AwaitingApproval -> pendingApprovals w <> [] ->
        status (stop w) = Idle
        /\ pendingApprovals (stop w) <> []
        /\ is_Some (pendingApproval (stop w)))
  /\ pendingApprovals (reset w) = [].
Proof.
  assert (Hq : pendingApprovals (stop w) = pendingApprovals w).
  { unfold stop, abortCurrent. by destruct (abortRef w). }
  assert (Hp : pendingApproval (stop w) = pendingApproval w).
  { unfold pendingApproval. by rewrite Hq. }
  repeat (split; [first [exact Hq | exact Hp
                         | unfold stop, abortCurrent; by destruct (abortRef w)]|]).
  split; [|reflexivity].
  intros _ Hne. split; [reflexivity|]. split; [by rewrite Hq|].
  rewrite Hp. unfold pendingApproval.
  destruct (pendingApprovals w) as [|current rest]; [done|]. by eexists.
Qed.

Lemma C10_stop_frame_witness :
  status awaitingTwo = AwaitingApproval
  /\ status (stop awaitingTwo) = Idle
  /\ pendingApprovals (stop awaitingTwo) <> []
  /\ is_Some (pendingApproval (stop awaitingTwo)).
Proof.
  split; [reflexivity|].
  apply (C10_stop_frame awaitingTwo); [reflexivity|].
  vm_compute. discriminate.
Defined.


Lemma C3_approve_revalidates_witness :
  fileTree (approve (setPendingApprovals [malformedCall] awaitingTwo))
  = fileTree awaitingTwo
  /\ exists r tree',
       executeEditFile {| edit_path := "main.tf"; oldContent := "";
                          newContent := "variable x {}" |} (fileTree awaitingTwo)
       = (Normal r, tree')
       /\ fileTree (approve awaitingTwo) = tree'.
Proof.
  split.
  - destruct (proj1 (C3_approve_revalidates
                       (setPendingApprovals [malformedCall] awaitingTwo)
                       malformedCall [] eq_refl) eq_refl)
      as (message & _ & Htree & _).
    exact Htree.
  - destruct (proj1 (proj2 (C3_approve_revalidates awaitingTwo
                              {| toolCallId := "call-1"; toolName := editFile;
                                 args := createArgs |}
                              [{| toolCallId := "call-2"; toolName := deleteFile;
                                  args := deleteArgs |}] eq_refl))
                "main.tf" "" "variable x {}" eq_refl eq_refl eq_refl eq_refl)
      as (r & tree' & Hrun & Htree & _).
    exists r, tree'. by split.
Defined.

Lemma C5_reject_never_executes_witness :
  fileTree (reject awaitingTwo) = fileTree awaitingTwo
  /\ List.filter isExecutorCall (trace (reject awaitingTwo)) = []
  /\ (toolCallId <$> pendingApprovals (reject awaitingTwo)) = ["call-2"].
Proof.
  destruct (C5_reject_never_executes awaitingTwo
              {| toolCallId := "call-1"; toolName := editFile; args := createArgs |}
              [{| toolCallId := "call-2"; toolName := deleteFile; args := deleteArgs |}]
              eq_refl)
    as (Htree & Hcalls & _ & Hrest).
  split; [exact Htree|]. split; [rewrite Hcalls; reflexivity|].
  rewrite Hrest. reflexivity.
Defined.

(** * Properties of the code around the approval loop *)

(** ** Occurrences of a pattern *)

Lemma append_assoc (a b c : string) : (a +:+ b) +:+ c = a +:+ b +:+ c.
Proof. induction a as [|x a IH]; [reflexivity|]. by rewrite !append_cons, IH. Qed.

Lemma strlen_append (a b : string) : strlen (a +:+ b) = strlen a + strlen b.
Proof.
  induction a as [|x a IH]; [reflexivity|].
  rewrite append_cons. change (S (strlen (a +:+ b)) = S (strlen a + strlen b)).
  by rewrite IH.
Qed.

Lemma prefix_append (p s : string) : String.prefix p (p +:+ s) = true.
Proof.
  induction p as [|c p IH]; [by destruct s|].
  rewrite append_cons. cbn [String.prefix].
  by destruct (Ascii.ascii_dec c c).
Qed.

Lemma sliceFrom_append (p s : string) : sliceFrom (strlen p) (p +:+ s) = s.
Proof. induction p as [|c p IH]; [by destruct s|]. by rewrite append_cons. Qed.

Lemma sliceFrom_append_le (n : nat) (a b : string) :
  n <= strlen a -> sliceFrom n (a +:+ b) = sliceFrom n a +:+ b.
Proof.
  revert a. induction n as [|n IH]; intros a Hn; [reflexivity|].
  destruct a as [|c a]; [cbn in Hn; lia|].
  rewrite append_cons. cbn [sliceFrom]. apply IH.
  change (strlen (String c a)) with (S (strlen a)) in Hn. lia.
Qed.

Lemma sliceFrom_substring (n : nat) (s : string) :
  substring n (strlen s - n) s = sliceFrom n s.
Proof.
  revert s. induction n as [|n IH]; intros s.
  - rewrite Nat.sub_0_r. cbn [sliceFrom]. apply substring_all.
  - destruct s as [|c s]; [reflexivity|].
    change (strlen (String c s)) with (S (strlen s)).
    cbn [Nat.sub substring sliceFrom]. apply IH.
Qed.

Lemma sliceFrom_0 (s : string) : sliceFrom 0 s = s.
Proof. reflexivity. Qed.

Lemma sliceFrom_succ (n : nat) (c : ascii) (s : string) :
  sliceFrom (S n) (String c s) = sliceFrom n s.
Proof. reflexivity. Qed.

(** [indexOf] finds an occurrence exactly when there is one, and then the
    leftmost. *)
Lemma indexOf_occurs (pat before after : string) :
  exists pos,
    indexOf (before +:+ pat +:+ after) pat = Some pos /\ pos <= strlen before.
Proof.
  induction before as [|c before IH].
  - exists 0. split; [|cbn; lia].
    change ("" +:+ pat +:+ after) with (pat +:+ after).
    destruct (pat +:+ after) eqn:Hs; cbn [indexOf]; rewrite <- Hs, prefix_append;
      reflexivity.
  - destruct IH as (pos & Hidx & Hle).
    rewrite append_cons. cbn [indexOf].
    destruct (String.prefix pat (String c (before +:+ pat +:+ after))).
    + exists 0. split; [reflexivity|lia].
    + exists (S pos). rewrite Hidx. split; [reflexivity|].
      change (strlen (String c before)) with (S (strlen before)). lia.
Qed.

Lemma indexOf_None_iff (s pat : string) : indexOf s pat = None <-> ~ occurs pat s.
Proof.
  split.
  - intros Hnone (before & after & ->).
    destruct (indexOf_occurs pat before after) as (pos & Hidx & _). congruence.
  - intros Hno. destruct (indexOf s pat) as [pos|] eqn:Hidx; [|reflexivity].
    exfalso. apply Hno. eexists _, _. by apply indexOf_split.
Qed.

(** The code units stepped over after a match are dropped whatever they are. *)
Lemma split_go_skip (pat : string) (k : nat) (piece s : string) :
  split_go pat k piece s = split_go pat 0 piece (sliceFrom k s).
Proof.
  revert k. induction s as [|c s IH]; intros k; [by destruct k|].
  destruct k as [|k]; [reflexivity|].
  cbn [split_go sliceFrom]. apply IH.
Qed.

(** [split] around the leftmost occurrence. *)
Lemma split_go_match (pat piece s : string) (pos : nat) :
  pat <> "" ->
  indexOf s pat = Some pos ->
  split_go pat 0 piece s
  = (piece +:+ substring 0 pos s)
      :: split_go pat 0 "" (sliceFrom (pos + strlen pat) s).
Proof.
  intros Hpat. revert piece pos. induction s as [|c s IH]; intros piece pos Hidx.
  - cbn [indexOf] in Hidx. destruct pat; [done|discriminate].
  - cbn [indexOf] in Hidx. cbn [split_go].
    destruct (String.prefix pat (String c s)).
    + injection Hidx as <-. cbn [substring Nat.add]. rewrite append_empty_r.
      f_equal. rewrite split_go_skip.
      destruct pat as [|d pat]; [done|].
      change (strlen (String d pat)) with (S (strlen pat)).
      by rewrite Nat.sub_succ, Nat.sub_0_r.
    + destruct (indexOf s pat) as [pos'|] eqn:Hrest; [|discriminate].
      injection Hidx as <-.
      rewrite (IH _ pos' eq_refl). cbn [substring Nat.add sliceFrom].
      by rewrite append_assoc_char.
Qed.

Lemma split_go_nonempty (pat : string) (k : nat) (piece s : string) :
  split_go pat k piece s <> [].
Proof.
  revert k piece. induction s as [|c s IH]; intros k piece; [done|].
  cbn [split_go]. destruct k; [|apply IH].
  destruct (String.prefix pat (String c s)); [done|apply IH].
Qed.

Lemma split_go_length (pat : string) (k : nat) (piece s : string) :
  1 <= length (split_go pat k piece s).
Proof.
  pose proof (split_go_nonempty pat k piece s).
  destruct (split_go pat k piece s); [done|cbn; lia].
Qed.

(** The number of matches [split] finds is zero exactly when the pattern
    does not occur ... *)
Lemma occurrences_zero (s pat : string) :
  pat <> "" -> (length (split s pat) - 1 = 0 <-> ~ occurs pat s).
Proof.
  intros Hpat. rewrite <- indexOf_None_iff.
  assert (Hsplit : split s pat = split_go pat 0 "" s).
  { unfold split. by destruct pat. }
  rewrite Hsplit. split.
  - intros Hlen. destruct (indexOf s pat) as [pos|] eqn:Hidx; [|reflexivity].
    rewrite (split_go_match pat "" s pos Hpat Hidx) in Hlen. cbn [length] in Hlen.
    pose proof (split_go_length pat 0 "" (sliceFrom (pos + strlen pat) s)). lia.
  - intros Hnone. by rewrite split_go_no_occurrence.
Qed.

(** ... and more than one exactly when it occurs at two places that do not
    overlap. *)
Lemma occurrences_several (s pat : string) :
  pat <> "" -> (1 < length (split s pat) - 1 <-> occursTwice pat s).
Proof.
  intros Hpat.
  assert (Hsplit : split s pat = split_go pat 0 "" s).
  { unfold split. by destruct pat. }
  rewrite Hsplit. split.
  - intros Hlen.
    destruct (indexOf s pat) as [pos|] eqn:Hidx;
      [|rewrite split_go_no_occurrence in Hlen by done; cbn in Hlen; lia].
    rewrite (split_go_match pat "" s pos Hpat Hidx) in Hlen. cbn [length] in Hlen.
    destruct (indexOf (sliceFrom (pos + strlen pat) s) pat) as [pos2|] eqn:Hidx2;
      [|rewrite split_go_no_occurrence in Hlen by done; cbn in Hlen; lia].
    pose proof (indexOf_split s pat pos Hidx) as Hs.
    rewrite sliceFrom_substring in Hs.
    pose proof (indexOf_split _ pat pos2 Hidx2) as Hs2.
    eexists _, _, _. rewrite Hs at 1. rewrite Hs2 at 1. reflexivity.
  - intros (before & between & after & ->).
    destruct (indexOf_occurs pat before (between +:+ pat +:+ after)) as (pos & Hidx & Hle).
    rewrite (split_go_match pat "" _ pos Hpat Hidx). cbn [length].
    assert (Hrest : occurs pat (sliceFrom (pos + strlen pat)
                                  (before +:+ pat +:+ between +:+ pat +:+ after))).
    { rewrite <- (append_assoc before pat).
      rewrite sliceFrom_append_le by (rewrite strlen_append; lia).
      eexists _, _. by rewrite append_assoc. }
    destruct (indexOf (sliceFrom (pos + strlen pat)
                         (before +:+ pat +:+ between +:+ pat +:+ after)) pat)
      as [pos2|] eqn:Hidx2.
    + rewrite (split_go_match pat "" _ pos2 Hpat Hidx2). cbn [length].
      pose proof (split_go_length pat 0 ""
                    (sliceFrom (pos2 + strlen pat)
                       (sliceFrom (pos + strlen pat)
                          (before +:+ pat +:+ between +:+ pat +:+ after)))). lia.
    + exfalso. exact (proj1 (indexOf_None_iff _ _) Hidx2 Hrest).
Qed.

(** Joining the pieces of [split] with the separator gives the string back. *)
Lemma join_split_go (sep piece s : string) (k : nat) :
  sep <> "" ->
  join sep (split_go sep k piece s) = piece +:+ sliceFrom k s.
Proof.
  intros Hsep. revert k piece. induction s as [|c s IH]; intros k piece.
  - destruct k; cbn; by rewrite append_empty_r.
  - cbn [split_go]. destruct k as [|k]; [|by rewrite IH].
    destruct (String.prefix sep (String c s)) eqn:Hpre.
    + pose proof (split_go_nonempty sep (strlen sep - 1) "" s) as Hne.
      cbn [join]. destruct (split_go sep (strlen sep - 1) "" s) as [|x rest] eqn:Hgo;
        [done|].
      rewrite <- Hgo, IH. cbn [sliceFrom].
      f_equal. change ("" +:+ sliceFrom (strlen sep - 1) s) with (sliceFrom (strlen sep - 1) s).
      etransitivity; [|symmetry; apply (prefix_split sep (String c s) Hpre)].
      rewrite sliceFrom_substring. f_equal.
      destruct sep as [|d sep]; [done|].
      change (strlen (String d sep)) with (S (strlen sep)).
      by rewrite Nat.sub_succ, Nat.sub_0_r.
    + rewrite IH. cbn [sliceFrom]. by rewrite append_assoc_char.
Qed.

Lemma join_split (s sep : string) : sep <> "" -> join sep (split s sep) = s.
Proof.
  intros Hsep.
  assert (Hsplit : split s sep = split_go sep 0 "" s).
  { unfold split. by destruct sep. }
  by rewrite Hsplit, join_split_go.
Qed.

(** ** More on the tool executors *)

#[export] Instance MapTree_update_laws : FileTreeUpdateLaws MapTree.
Proof.
  split; intros; cbn.
  - rewrite lookup_insert_eq. apply bool_decide_eq_true. by eexists.
  - by rewrite lookup_insert_eq.
  - rewrite lookup_delete_eq. apply bool_decide_eq_false. by intros [? ?].
Qed.

Section MoreToolFacts.
Context {FileTree : Type} `{FileTreeOps FileTree}.

(** X1: on an existing text file and with a non-empty [oldContent] the edit
    goes one of three ways, told apart by how [oldContent] occurs in the
    file: not at all ("not found", tree unchanged), at two places that do
    not overlap ("matches n locations" with the number of matches found,
    tree unchanged), or otherwise exactly once in the sense of [split]
    ("edited", the file rewritten by [replace]). *)
Theorem executeEditFile_match_cases (args : EditArgs) (tree : FileTree) (current : string) :
  existsFile (edit_path args) tree = true ->
  getFileText (edit_path args) tree = Normal current ->
  oldContent args <> "" ->
  let p := edit_path args in
  let ko message := {| success := false; action := None; error := Some message; path := p |} in
  (~ occurs (oldContent args) current
   /\ executeEditFile args tree
      = (Normal (ko ("oldContent not found in " +:+ p
                     +:+ ". Read the file first to get exact content.")), tree))
  \/ (occursTwice (oldContent args) current
      /\ exists n, 2 <= n
         /\ executeEditFile args tree
            = (Normal (ko ("oldContent matches " +:+ numberToString n
                           +:+ " locations in " +:+ p
                           +:+ ". Include more surrounding context to make the match unique.")),
               tree))
  \/ (occurs (oldContent args) current
      /\ ~ occursTwice (oldContent args) current
      /\ executeEditFile args tree
         = (Normal {| success := true; action := Some "edited"; error := None; path := p |},
            updateFile p (replace current (oldContent args) (newContent args)) tree)).
Proof.
  intros Hex Htext Hold p ko. subst p ko.
  pose proof (occurrences_zero current (oldContent args) Hold) as Hzero.
  pose proof (occurrences_several current (oldContent args) Hold) as Hmany.
  rewrite executeEditFile_eq. cbv zeta. rewrite Hex, Htext.
  destruct (String.eqb_spec (oldContent args) "") as [|_]; [done|].
  destruct (Nat.eqb_spec (length (split current (oldContent args)) - 1) 0) as [Hz|Hnz].
  { left. split; [by apply Hzero|reflexivity]. }
  destruct (Nat.ltb_spec 1 (length (split current (oldContent args)) - 1)) as [Hgt|Hle].
  { right. left. split; [by apply Hmany|].
    exists (length (split current (oldContent args)) - 1). split; [lia|reflexivity]. }
  right. right. split; [|split; [|reflexivity]].
  - destruct (indexOf current (oldContent args)) as [pos|] eqn:Hidx.
    + eexists _, _. by apply indexOf_split.
    + exfalso. apply Hnz. apply Hzero. by apply indexOf_None_iff.
  - intros Htwice. apply Hmany in Htwice. lia.
Qed.

(** X2: an executor that reports a failure has left the tree as it was. *)
Theorem executors_fail_without_change (tree tree' : FileTree) (r : ToolResult) :
  success r = false ->
  (forall args, executeEditFile args tree = (Normal r, tree') -> tree' = tree)
  /\ (forall p, executeDeleteFile p tree = (Normal r, tree') -> tree' = tree).
Proof.
  intros Hfail. split.
  - intros args. rewrite executeEditFile_eq. cbv zeta.
    repeat case_match; intros Hrun; injection Hrun as <- <-; done.
  - intros p. rewrite executeDeleteFile_eq.
    case_match; intros Hrun; injection Hrun as <- <-; done.
Qed.

(** X3: [readFile] never changes the tree and never throws; it returns the
    text exactly when the path exists and holds a text file, and an error
    otherwise. *)
Theorem readFile_read_only (p : string) (tree : FileTree) :
  exists r,
    readFile p tree = (Normal r, tree)
    /\ forall content,
         r = ReadContent content
         <-> existsFile p tree = true /\ getFileText p tree = Normal content.
Proof.
  unfold readFile, try_or_return, call, mbind, Tool_bind, bind, getFileTree, ret.
  destruct (existsFile p tree); cbn [negb].
  - destruct (getFileText p tree) as [content|e].
    + eexists. split; [reflexivity|]. intros c. split; [by intros [= ->]|].
      by intros [_ [= ->]].
    + eexists. split; [reflexivity|]. intros c. split; [done|by intros [_ ?]].
  - eexists. split; [reflexivity|]. intros c. split; [done|by intros [? _]].
Qed.

End MoreToolFacts.

Lemma executors_fail_without_change_witness :
  (executeEditFile {| edit_path := "old.tf"; oldContent := "missing"; newContent := "x" |}
     startTree).2 = startTree.
Proof.
  apply (proj1 (executors_fail_without_change startTree
                  (executeEditFile {| edit_path := "old.tf"; oldContent := "missing";
                                      newContent := "x" |} startTree).2
                  {| success := false; action := None;
                     error := Some "oldContent not found in old.tf. Read the file first to get exact content.";
                     path := "old.tf" |} eq_refl)
           {| edit_path := "old.tf"; oldContent := "missing"; newContent := "x" |}).
  vm_compute. reflexivity.
Defined.

Lemma executeEditFile_match_cases_witness :
  occurs "sour" "resource" /\ ~ occursTwice "sour" "resource".
Proof.
  destruct (executeEditFile_match_cases
              {| edit_path := "old.tf"; oldContent := "sour"; newContent := "x" |}
              startTree "resource")
    as [[_ Hrun]|[[_ (n & _ & Hrun)]|(Hyes & Hno & _)]];
    [vm_compute; reflexivity | vm_compute; reflexivity | discriminate | | | ].
  - vm_compute in Hrun. discriminate.
  - vm_compute in Hrun. discriminate.
  - by split.
Defined.

Section ComposeFacts.
Context {FileTree : Type} `{FileTreeLaws FileTree} `{!FileTreeUpdateLaws FileTree}.

(** X4: a successful edit is visible to [readFile]: reading the path
    afterwards returns the new text, which is [newContent] for a file that
    was absent, the old text followed by [newContent] when [oldContent] is
    empty, and the old text after [replace] otherwise. *)
Theorem edit_then_readFile (args : EditArgs) (tree tree' : FileTree) (r : ToolResult) :
  executeEditFile args tree = (Normal r, tree') ->
  success r = true ->
  readFile (edit_path args) tree'
  = (Normal (ReadContent
               (if existsFile (edit_path args) tree then
                  match getFileText (edit_path args) tree with
                  | Normal current =>
                      if String.eqb (oldContent args) "" then current +:+ newContent args
                      else replace current (oldContent args) (newContent args)
                  | Throw _ => ""
                  end
                else newContent args)),
     tree').
Proof.
  rewrite executeEditFile_eq. cbv zeta.
  assert (Hread : forall t content,
            existsFile (edit_path args) t = true ->
            getFileText (edit_path args) t = Normal content ->
            readFile (edit_path args) t = (Normal (ReadContent content), t)).
  { intros t content Hex Htext.
    unfold readFile, try_or_return, call, mbind, Tool_bind, bind, getFileTree, ret.
    by rewrite Hex, Htext. }
  destruct (existsFile (edit_path args) tree).
  - destruct (getFileText (edit_path args) tree) as [current|e];
      [|intros [= <- <-]; discriminate].
    destruct (String.eqb (oldContent args) "").
    + rewrite strlen_positive.
      destruct current as [|c current]; cbn [String.eqb negb];
        intros [= <- <-] _; apply Hread;
        auto using existsFile_updateFile, getFileText_updateFile.
    + repeat case_match; intros [= <- <-]; try discriminate.
      intros _. apply Hread; auto using existsFile_updateFile, getFileText_updateFile.
  - destruct (String.eqb (oldContent args) ""); intros [= <- <-]; try discriminate.
    intros _. apply Hread; auto using existsFile_createFile, getFileText_createFile.
Qed.

(** X5: once a file is deleted, [readFile] reports that it is not found, a
    second delete fails, and so does an edit with a non-empty
    [oldContent]; none of them changes the tree. *)
Theorem after_executeDeleteFile (p : string) (tree : FileTree) :
  existsFile p tree = true ->
  executeDeleteFile p tree
  = (Normal {| success := true; action := None; error := None; path := p |},
     removeFile p tree)
  /\ readFile p (removeFile p tree)
     = (Normal (ReadError ("File not found: " +:+ p
                           +:+ ". Use listFiles to see available files.")),
        removeFile p tree)
  /\ executeDeleteFile p (removeFile p tree)
     = (Normal {| success := false; action := None;
                  error := Some ("File not found: " +:+ p); path := p |},
        removeFile p tree)
  /\ (forall old new, old <> "" ->
        executeEditFile {| edit_path := p; oldContent := old; newContent := new |}
          (removeFile p tree)
        = (Normal {| success := false; action := None;
                     error := Some ("File not found: " +:+ p +:+ ". Use listFiles first.");
                     path := p |},
           removeFile p tree)).
Proof.
  intros Hex. split; [by rewrite executeDeleteFile_eq, Hex|]. split; [|split].
  - unfold readFile, try_or_return, call, mbind, Tool_bind, bind, getFileTree, ret.
    by rewrite existsFile_removeFile.
  - by rewrite executeDeleteFile_eq, existsFile_removeFile.
  - intros old new Hold. rewrite executeEditFile_eq. cbv zeta.
    cbn [edit_path oldContent newContent]. rewrite existsFile_removeFile.
    by destruct (String.eqb_spec old "").
Qed.

End ComposeFacts.

Lemma edit_then_readFile_witness :
  readFile "old.tf"
    (executeEditFile {| edit_path := "old.tf"; oldContent := "source";
                        newContent := "mote" |} startTree).2
  = (Normal (ReadContent "remote"),
     (executeEditFile {| edit_path := "old.tf"; oldContent := "source";
                         newContent := "mote" |} startTree).2).
Proof.
  etransitivity.
  - apply (edit_then_readFile
             {| edit_path := "old.tf"; oldContent := "source"; newContent := "mote" |}
             startTree _
             {| success := true; action := Some "edited"; error := None;
                path := "old.tf" |});
      [vm_compute; reflexivity|reflexivity].
  - vm_compute. reflexivity.
Defined.

Lemma after_executeDeleteFile_witness :
  executeDeleteFile "old.tf" (removeFile "old.tf" startTree)
  = (Normal {| success := false; action := None;
               error := Some "File not found: old.tf"; path := "old.tf" |},
     removeFile "old.tf" startTree).
Proof.
  apply (after_executeDeleteFile "old.tf" startTree). vm_compute. reflexivity.
Defined.

(** ** The cards of the transcript *)

Lemma join_cons (sep x : string) (items : list string) :
  items <> [] -> join sep (x :: items) = x +:+ sep +:+ join sep items.
Proof. by destruct items. Qed.

Lemma join_app (sep : string) (front back : list string) :
  front <> [] -> back <> [] ->
  join sep (front ++ back) = join sep front +:+ sep +:+ join sep back.
Proof.
  intros Hfront Hback. induction front as [|x front IH]; [done|].
  destruct front as [|y front].
  - cbn [app]. by rewrite join_cons.
  - rewrite <- app_comm_cons, join_cons by done.
    rewrite IH by done. rewrite (join_cons sep x (y :: front)) by done.
    by rewrite !append_assoc.
Qed.

Lemma split_nonempty (s sep : string) : sep <> "" -> split s sep <> [].
Proof.
  intros Hsep. unfold split. destruct sep; [done|]. apply split_go_nonempty.
Qed.

Lemma newline_nonempty : newline <> "".
Proof. discriminate. Qed.

(** X6: the diff of the approval card is never empty; its removed lines
    come before its added lines; the removed lines joined by line feeds are
    [oldContent] and the added lines joined by line feeds are [newContent]. *)
Theorem buildDiffLines_shows_both (oldContent newContent : string) :
  let lines := buildDiffLines oldContent newContent in
  lines <> []
  /\ lines = List.filter (hasType removed) lines ++ List.filter (hasType added) lines
  /\ join newline (dl_text <$> List.filter (hasType removed) lines) = oldContent
  /\ join newline (dl_text <$> List.filter (hasType added) lines) = newContent.
Proof.
  assert (Hkeep : forall t (l : list string),
            List.filter (hasType t) ((fun line => {| dl_type := t; dl_text := line |}) <$> l)
            = (fun line => {| dl_type := t; dl_text := line |}) <$> l).
  { intros t l. induction l as [|x l IH]; [reflexivity|].
    rewrite fmap_cons. cbn [List.filter]. rewrite IH. by destruct t. }
  assert (Hdrop : forall t u (l : list string), t <> u ->
            List.filter (hasType t) ((fun line => {| dl_type := u; dl_text := line |}) <$> l)
            = []).
  { intros t u l Hne. induction l as [|x l IH]; [reflexivity|].
    rewrite fmap_cons. cbn [List.filter]. rewrite IH. by destruct t, u. }
  assert (Htext : forall t (l : list string),
            dl_text <$> ((fun line => {| dl_type := t; dl_text := line |}) <$> l) = l).
  { intros t l. rewrite <- list_fmap_compose. apply list_fmap_id. }
  pose proof (split_nonempty newContent newline newline_nonempty) as Hnew.
  unfold buildDiffLines, splitLines. cbv zeta.
  destruct oldContent as [|c oldContent]; cbn [strlen String.length Nat.eqb].
  - rewrite Hkeep, Hdrop, Htext by done. cbn [app fmap list_fmap join].
    split; [by destruct (split newContent newline)|].
    split; [reflexivity|]. split; [reflexivity|].
    apply join_split, newline_nonempty.
  - rewrite !List.filter_app, !Hkeep, !Hdrop by done.
    rewrite List.app_nil_r. cbn [app]. rewrite !Htext.
    split.
    { intros Hnil. apply List.app_eq_nil in Hnil as [_ Hnil].
      by apply fmap_nil_inv in Hnil. }
    split; [reflexivity|]. split; apply join_split, newline_nonempty.
Qed.

(** X7: the text of a read file is shown whole when all lines are requested
    or when the card offers no toggle; when the card offers the toggle, the
    collapsed view holds exactly [MAX_VISIBLE_READ_LINES] lines and its
    text is the beginning of the content, cut at a line feed. *)
Theorem displayedReadFileText_complete (content : string) :
  displayedReadFileText true (Some content) = content
  /\ (hasTruncatedReadFile (Some content) = false ->
      displayedReadFileText false (Some content) = content)
  /\ (hasTruncatedReadFile (Some content) = true ->
      length (displayedReadFileLines false (Some content)) = MAX_VISIBLE_READ_LINES
      /\ exists hidden,
           content = displayedReadFileText false (Some content) +:+ newline +:+ hidden).
Proof.
  unfold displayedReadFileText, displayedReadFileLines, hasTruncatedReadFile, readFileLines.
  pose proof (join_split content newline newline_nonempty) as Hjoin.
  split; [exact Hjoin|]. split.
  - intros Hshort. apply Nat.ltb_ge in Hshort.
    by rewrite take_ge.
  - intros Hlong. apply Nat.ltb_lt in Hlong.
    assert (Hmax : MAX_VISIBLE_READ_LINES = 20) by reflexivity.
    split; [rewrite length_take; lia|].
    exists (join newline (drop MAX_VISIBLE_READ_LINES (split content newline))).
    rewrite <- join_app.
    + by rewrite take_drop.
    + intros Hnil. apply (f_equal length) in Hnil. rewrite length_take in Hnil.
      cbn [length] in Hnil. lia.
    + intros Hnil. apply (f_equal length) in Hnil. rewrite length_drop in Hnil.
      cbn [length] in Hnil. lia.
Qed.

Lemma displayedReadFileText_complete_witness :
  displayedReadFileText false (Some "a") = "a".
Proof.
  apply (displayedReadFileText_complete "a"). reflexivity.
Defined.

(** ** Model identifiers *)

Lemma startsWith_append (p s : string) : startsWith (p +:+ s) p = true.
Proof. apply prefix_append. Qed.

(** X8: an id normalised by [toOpenAICompatibleAnthropicModelID] is never
    resolved to the OpenAI provider; normalising is idempotent; an id that
    does not carry the prefix yet comes back from [resolveProviderModel]
    unchanged, under the Anthropic provider; and resolving fails exactly
    for the empty id and for the bare prefix. *)
Theorem resolve_normalised_anthropic_id (modelID : string) :
  toOpenAICompatibleAnthropicModelID (toOpenAICompatibleAnthropicModelID modelID)
  = toOpenAICompatibleAnthropicModelID modelID
  /\ (forall m,
        resolveProviderModel (toOpenAICompatibleAnthropicModelID modelID)
        <> Normal (openAIProvider m))
  /\ (startsWith modelID "anthropic/" = false -> modelID <> "" ->
      resolveProviderModel (toOpenAICompatibleAnthropicModelID modelID)
      = Normal (anthropicProvider modelID))
  /\ ((exists e, resolveProviderModel (toOpenAICompatibleAnthropicModelID modelID) = Throw e)
      <-> modelID = "" \/ modelID = "anthropic/").
Proof.
  assert (Hpre : startsWith (toOpenAICompatibleAnthropicModelID modelID) "anthropic/" = true).
  { unfold toOpenAICompatibleAnthropicModelID.
    destruct (startsWith modelID "anthropic/") eqn:Hs; [exact Hs|apply startsWith_append]. }
  assert (Hslice : startsWith modelID "anthropic/" = false ->
            sliceFrom (strlen anthropicModelPrefix) (toOpenAICompatibleAnthropicModelID modelID)
            = modelID).
  { intros Hs. unfold toOpenAICompatibleAnthropicModelID. rewrite Hs.
    apply (sliceFrom_append "anthropic/"). }
  split; [|split; [|split]].
  - unfold toOpenAICompatibleAnthropicModelID at 1. by rewrite Hpre.
  - intros m. unfold resolveProviderModel, anthropicModelPrefix. rewrite Hpre.
    by case_match.
  - intros Hs Hne. unfold resolveProviderModel. unfold anthropicModelPrefix at 1.
    rewrite Hpre, (Hslice Hs). by destruct (String.eqb_spec modelID "").
  - unfold resolveProviderModel. unfold anthropicModelPrefix at 1. rewrite Hpre.
    destruct (startsWith modelID "anthropic/") eqn:Hs.
    + unfold toOpenAICompatibleAnthropicModelID. rewrite Hs.
      pose proof (prefix_split "anthropic/" modelID Hs) as Hsplit.
      rewrite sliceFrom_substring in Hsplit.
      destruct (String.eqb_spec (sliceFrom (strlen anthropicModelPrefix) modelID) "")
        as [Hempty|Hfull].
      * split; [|by eexists]. intros _. right.
        unfold anthropicModelPrefix in Hempty. rewrite Hempty in Hsplit. exact Hsplit.
      * split; [by intros [e ?]|]. intros [-> | ->]; [discriminate|].
        exfalso. by apply Hfull.
    + rewrite (Hslice eq_refl). destruct (String.eqb_spec modelID "") as [->|Hne].
      * split; [by left|by eexists].
      * split; [by intros [e ?]|]. intros [-> | ->]; [done|discriminate].
Qed.

Lemma resolve_normalised_anthropic_id_witness :
  resolveProviderModel (toOpenAICompatibleAnthropicModelID "claude-sonnet")
  = Normal (anthropicProvider "claude-sonnet").
Proof.
  apply (resolve_normalised_anthropic_id "claude-sonnet"); [reflexivity|discriminate].
Defined.

(** [getModelKey] tells models apart. *)
Lemma getModelKey_inj (m1 m2 : AIBridgeModel) :
  getModelKey m1 = getModelKey m2 -> m1 = m2.
Proof.
  destruct m1 as [id1 [|]], m2 as [id2 [|]]; unfold getModelKey; cbn [providerName model_provider model_id];
    cbv [String.append]; intros Hkey; try discriminate; by injection Hkey as ->.
Qed.

Lemma dedupeModels_spec (seen : gset string) (models : list AIBridgeModel) :
  (forall m, m ∈ dedupeModels seen models <-> m ∈ models /\ getModelKey m ∉ seen)
  /\ NoDup (getModelKey <$> dedupeModels seen models)
  /\ sublist (dedupeModels seen models) models.
Proof.
  revert seen. induction models as [|model rest IH]; intros seen.
  { cbn. split; [|split; [constructor|constructor]].
    intros m. split; [by intros ?%elem_of_nil|by intros [?%elem_of_nil _]]. }
  cbn [dedupeModels]. cbv zeta.
  destruct (decide (getModelKey model ∈ seen)) as [Hseen|Hnew].
  - destruct (IH seen) as (Hmem & Hnodup & Hsub).
    split; [|split; [exact Hnodup|by apply sublist_cons]].
    intros m. rewrite Hmem, elem_of_cons. split; [tauto|].
    intros [[-> | Hin] Hkey]; [done|tauto].
  - destruct (IH ({[ getModelKey model ]} ∪ seen)) as (Hmem & Hnodup & Hsub).
    split; [|split].
    + intros m. rewrite !elem_of_cons, Hmem. split.
      * intros [-> | [Hin Hkey]]; [tauto|]. split; [tauto|set_solver].
      * intros [[-> | Hin] Hkey]; [tauto|].
        destruct (decide (getModelKey m = getModelKey model)) as [Heq|Hne].
        -- left. by apply getModelKey_inj.
        -- right. split; [exact Hin|set_solver].
    + rewrite fmap_cons. constructor; [|exact Hnodup].
      intros Hin. apply list_elem_of_fmap in Hin as (m & Hkey & Hin).
      apply Hmem in Hin as [_ Hnot]. set_solver.
    + by apply sublist_skip.
Qed.

(** X9: the models returned by the discovery are pairwise distinct, are
    exactly the models the two probes parsed, and keep their order. *)
Theorem dedupeModels_distinct (models : list AIBridgeModel) :
  NoDup (dedupeModels ∅ models)
  /\ (forall m, m ∈ dedupeModels ∅ models <-> m ∈ models)
  /\ sublist (dedupeModels ∅ models) models.
Proof.
  destruct (dedupeModels_spec ∅ models) as (Hmem & Hnodup & Hsub).
  split; [by apply (NoDup_fmap_1 getModelKey)|]. split; [|exact Hsub].
  intros m. rewrite Hmem. set_solver.
Qed.

(** X10: every model [parseProviderModels] returns has a non-empty id and
    the provider asked for, there are no more models than entries, and a
    body that is not an object with an array [data] yields no model. *)
Theorem parseProviderModels_sound (body : JsValue) (provider : AIBridgeProvider) :
  Forall (fun m => model_id m <> "" /\ model_provider m = provider)
    (parseProviderModels body provider)
  /\ (forall items, getProp body "data" = JArr items ->
        length (parseProviderModels body provider) <= length items)
  /\ ((forall items, getProp body "data" <> JArr items) ->
      parseProviderModels body provider = []).
Proof.
  unfold parseProviderModels.
  destruct (isRecord body); cbn [negb];
    [|split; [constructor|split; [cbn; intros; lia|done]]].
  destruct (getProp body "data") as [| | | | |items|] eqn:Hdata;
    try (split; [constructor|split; [cbn; intros; lia|done]]).
  split; [|split].
  - clear Hdata. induction items as [|item items IH]; [constructor|].
    cbn [flat_map]. apply Forall_app. split; [|exact IH].
    destruct (isRecord item); cbn [negb]; [|constructor].
    destruct (getProp item "id") as [| | | |id| |]; try constructor.
    destruct id as [|c id]; cbn [strlen String.length Nat.eqb]; repeat constructor; done.
  - intros items' [= <-]. clear Hdata.
    induction items as [|item items IH]; [cbn; lia|].
    cbn [flat_map]. rewrite length_app. cbn [length].
    assert (length (if negb (isRecord item) then []
                    else match getProp item "id" with
                         | JStr id =>
                             if Nat.eqb (strlen id) 0 then []
                             else [{| model_id := id; model_provider := provider |}]
                         | _ => []
                         end) <= 1); [|lia].
    repeat case_match; cbn; lia.
  - intros Hnot. exfalso. by apply (Hnot items).
Qed.

(** X11: the discovery throws exactly when no model was discovered and a
    request failed.  An answer with a status outside 200..299 is not a
    failure: it counts as an empty list, so two such answers return the
    empty list, and the models of one provider are returned even though
    the request to the other failed. *)
Theorem aiBridgeModels_throws_iff (openAIResponse anthropicResponse : Settled HttpResponse) :
  let discovered :=
    match fetchProviderModels openAIResponse openai with
    | fulfilled value => value
    | rejected => []
    end
    ++ match fetchProviderModels anthropicResponse anthropic with
       | fulfilled value => value
       | rejected => []
       end in
  ((exists e, aiBridgeModels openAIResponse anthropicResponse = Throw e)
   <-> discovered = []
       /\ (openAIResponse = rejected \/ anthropicResponse = rejected))
  /\ (forall models, aiBridgeModels openAIResponse anthropicResponse = Normal models ->
        NoDup models /\ forall m, m ∈ models <-> m ∈ discovered)
  /\ (forall r1 r2,
        openAIResponse = fulfilled r1 -> anthropicResponse = fulfilled r2 ->
        (response_status r1 < 200 \/ 300 <= response_status r1)%Z ->
        (response_status r2 < 200 \/ 300 <= response_status r2)%Z ->
        aiBridgeModels openAIResponse anthropicResponse = Normal []).
Proof.
  intros discovered. unfold aiBridgeModels. cbv zeta.
  assert (Hflat : flat_map (fun probe : Settled (list AIBridgeModel) =>
                              match probe with fulfilled value => value | rejected => [] end)
                    [fetchProviderModels openAIResponse openai;
                     fetchProviderModels anthropicResponse anthropic] = discovered).
  { subst discovered. cbn [flat_map]. by rewrite List.app_nil_r. }
  rewrite Hflat.
  assert (Hrej : forall response provider,
            match fetchProviderModels response provider with
            | rejected => true | _ => false end = true <-> response = rejected).
  { intros response provider. destruct response as [r|]; cbn [fetchProviderModels];
      [|done].
    destruct (_ || _)%bool; split; discriminate. }
  split; [|split].
  - destruct (Nat.eqb_spec (length discovered) 0) as [Hlen|Hlen]; cbn [andb].
    + apply nil_length_inv in Hlen.
      destruct (_ || _)%bool eqn:Hfail.
      * split; [|by eexists]. intros _. split; [exact Hlen|].
        apply orb_true_iff in Hfail as [Hf|Hf]; apply Hrej in Hf; auto.
      * split; [by intros [e ?]|]. intros [_ Hf].
        apply orb_false_iff in Hfail as [Hf1 Hf2].
        destruct Hf as [Hf|Hf].
        -- apply (proj2 (Hrej _ openai)) in Hf. congruence.
        -- apply (proj2 (Hrej _ anthropic)) in Hf. congruence.
    + split; [by intros [e ?]|]. intros [Hnil _]. by rewrite Hnil in Hlen.
  - intros models Hrun.
    assert (models = dedupeModels ∅ discovered) as ->.
    { destruct (_ && _)%bool in Hrun; [discriminate|]. by injection Hrun as <-. }
    destruct (dedupeModels_spec ∅ discovered) as (Hmem & Hnodup & _).
    split; [by apply (NoDup_fmap_1 getModelKey)|].
    intros m. rewrite Hmem. set_solver.
  - intros r1 r2 -> -> Hs1 Hs2.
    assert (Hd : discovered = []).
    { subst discovered. cbn [fetchProviderModels].
      assert (H1 : (Z.ltb (response_status r1) 200 || Z.leb 300 (response_status r1))%bool = true)
        by (apply orb_true_iff; lia).
      assert (H2 : (Z.ltb (response_status r2) 200 || Z.leb 300 (response_status r2))%bool = true)
        by (apply orb_true_iff; lia).
      by rewrite H1, H2. }
    rewrite Hd. cbn [fetchProviderModels].
    by repeat case_match.
Qed.

Lemma aiBridgeModels_throws_iff_witness :
  aiBridgeModels
    (fulfilled {| response_status := 404; response_data := JNull |})
    (fulfilled {| response_status := 500; response_data := JNull |})
  = Normal [].
Proof.
  apply (proj2 (proj2 (aiBridgeModels_throws_iff
           (fulfilled {| response_status := 404; response_data := JNull |})
           (fulfilled {| response_status := 500; response_data := JNull |})))
           {| response_status := 404; response_data := JNull |}
           {| response_status := 500; response_data := JNull |} eq_refl eq_refl);
    cbn; lia.
Defined.

(** ** Invariants of the hook *)

Section InvariantFacts.
Context {FileTree : Type} `{FileTreeOps FileTree}.

Implicit Types w : World FileTree.

Lemma coherent_same w w' :
  abortRef w' = abortRef w -> status w' = status w -> runs w' = runs w ->
  pendingApprovals w' = pendingApprovals w ->
  coherent w -> coherent w'.
Proof. intros Ha Hs Hr Hq. unfold coherent. by rewrite Ha, Hs, Hr, Hq. Qed.

Lemma coherent_runStream ms w : coherent (runStream ms w).
Proof.
  destruct (runStream_frame ms w) as (_ & _ & _ & _ & Hst & Href & _).
  split.
  - intros c Hc. rewrite Href in Hc. injection Hc as <-.
    split; [exact Hst|]. eexists. split; [apply runStream_new_run|reflexivity].
  - rewrite Hst. discriminate.
Qed.

Lemma coherent_no_handle w s q rs :
  (s = AwaitingApproval -> q <> []) ->
  coherent (setRuns rs (setAbortRef None (setStatus s (setPendingApprovals q w)))).
Proof. intros Hq. split; [discriminate|exact Hq]. Qed.

Lemma coherent_settle w current v : coherent w -> coherent (settle current v w).
Proof.
  intros Hc. unfold settle, executePendingTool. cbn -[runStream].
  case_match eqn:Hlen; [|apply coherent_runStream].
  destruct Hc as [Hhandle _]. split; [exact Hhandle|].
  intros _ Hnil. cbn in Hnil. rewrite Hnil in Hlen. discriminate.
Qed.

(** The backend keeps every invocation and never touches an abort flag. *)
Lemma deliver_keeps_flag w c c' ev r :
  runs w !! c = Some r ->
  exists r', runs (deliver c' ev w) !! c = Some r' /\ aborted r' = aborted r.
Proof.
  intros Hrun.
  destruct (decide (c' = c)) as [->|Hne]; [|exists r; split; [by apply deliver_other|done]].
  assert (Hlt : c < length (runs w)) by (by eapply lookup_lt_Some).
  assert (Hsus : forall p r0 w0, runs w0 = runs w -> aborted r0 = aborted r ->
            exists r', runs (suspend c p r0 w0) !! c = Some r' /\ aborted r' = aborted r).
  { intros p r0 w0 Hruns Hab. exists (withPhase p r0).
    rewrite lookup_suspend, decide_True by (rewrite ?Hruns; done). by split. }
  assert (Hrefresh : forall r0 w0,
            runs (refreshAssistantMessage r0 w0).2 = runs w0
            /\ aborted (refreshAssistantMessage r0 w0).1 = aborted r0).
  { intros r0 w0. unfold refreshAssistantMessage. by destruct (currentAssistantId r0). }
  unfold deliver. rewrite Hrun.
  destruct (phase r), ev as [| |part| | |steps|]; try (by exists r); try (by apply Hsus).
  - unfold onPart, onAborted. destruct (aborted r) eqn:Hab; [by apply Hsus|].
    destruct part as [text|id name input|id output| |]; try (by apply Hsus).
    + match goal with |- context [refreshAssistantMessage ?r0 w] =>
        destruct (Hrefresh r0 w) as [Hr1 Hr2];
        destruct (refreshAssistantMessage r0 w) as [r1 w1]
      end.
      cbn in Hr1, Hr2. apply Hsus; [exact Hr1|congruence].
    + destruct (getToolCallArgs _); [|unfold onStreamError; rewrite Hab; by apply Hsus].
      match goal with |- context [refreshAssistantMessage ?r0 w] =>
        destruct (Hrefresh r0 w) as [Hr1 Hr2];
        destruct (refreshAssistantMessage r0 w) as [r1 w1]
      end.
      cbn in Hr1, Hr2. apply Hsus; [exact Hr1|congruence].
    + match goal with |- context [refreshAssistantMessage ?r0 w] =>
        destruct (Hrefresh r0 w) as [Hr1 Hr2];
        destruct (refreshAssistantMessage r0 w) as [r1 w1]
      end.
      cbn in Hr1, Hr2. apply Hsus; [exact Hr1|congruence].
  - unfold onStreamError. destruct (aborted r) eqn:Hab; by apply Hsus.
  - unfold onAborted. destruct (aborted r) eqn:Hab; by apply Hsus.
  - unfold onSteps. destruct (reconcile steps); [|by apply Hsus].
    destruct (getPendingToolCalls steps) as [q|]; [|by apply Hsus].
    by destruct (Nat.ltb 0 (length q)); apply Hsus.
Qed.

(** An event of the backend either leaves status and queue alone, keeping
    or clearing the handle, or clears the handle and sets a status that
    fits the queue. *)
Lemma deliver_handle w c ev :
  (status (deliver c ev w) = status w
   /\ pendingApprovals (deliver c ev w) = pendingApprovals w
   /\ (abortRef (deliver c ev w) = abortRef w \/ abortRef (deliver c ev w) = None))
  \/ (abortRef (deliver c ev w) = None
      /\ (status (deliver c ev w) = AwaitingApproval ->
          pendingApprovals (deliver c ev w) <> [])).
Proof.
  unfold deliver. destruct (runs w !! c) as [r|]; [|left; by auto].
  assert (Hrefresh : forall r0 w0,
            abortRef (refreshAssistantMessage r0 w0).2 = abortRef w0
            /\ status (refreshAssistantMessage r0 w0).2 = status w0
            /\ pendingApprovals (refreshAssistantMessage r0 w0).2 = pendingApprovals w0).
  { intros r0 w0. unfold refreshAssistantMessage. by destruct (currentAssistantId r0). }
  assert (Hpublish : forall p r0,
            let w' := let '(r1, w1) := refreshAssistantMessage r0 w in suspend c p r1 w1 in
            status w' = status w
            /\ pendingApprovals w' = pendingApprovals w
            /\ (abortRef w' = abortRef w \/ abortRef w' = None)).
  { intros p r0. destruct (Hrefresh r0 w) as (Hr1 & Hr2 & Hr3).
    destruct (refreshAssistantMessage r0 w) as [r1 w1]. cbn in *. by auto. }
  destruct (phase r), ev as [| |part| | |steps|]; try (left; by auto).
  - right. by split.
  - unfold onPart, onAborted, onStreamError.
    destruct (aborted r); [right; by split|].
    destruct part as [text|id name input|id output| |];
      try (left; by auto); try (left; apply (Hpublish Consuming)).
    destruct (getToolCallArgs _); [left; apply (Hpublish Consuming)|right; by split].
  - unfold onStreamError. destruct (aborted r); [left; by auto|right; by split].
  - unfold onAborted. destruct (aborted r); [right; by split|left; by auto].
  - unfold onSteps. destruct (reconcile steps); [|left; by auto].
    destruct (getPendingToolCalls steps) as [q|]; [|left; by auto].
    right. destruct q as [|entry q]; by split.
Qed.

Lemma coherent_step w a : coherent w -> coherent (step a w).
Proof.
  intros Hc. destruct a as [text| | | | |c ev]; cbn [step].
  - unfold send. destruct (status w); try exact Hc;
      (destruct (abortRef w); [exact Hc|]);
      (destruct (String.eqb (trim text) ""); [exact Hc|]);
      apply coherent_runStream.
  - unfold approve. destruct (pendingApprovals w) as [|current rest]; [exact Hc|].
    destruct (approvedResult_frame current w)
      as (v & w1 & -> & _ & Hs & Hq & _ & Ha & Hr & _).
    apply coherent_settle. by apply (coherent_same w).
  - unfold reject. destruct (pendingApprovals w) as [|current rest]; [exact Hc|].
    by apply coherent_settle.
  - split; [discriminate|]. intros Hst. discriminate.
  - split; [discriminate|]. intros Hst. discriminate.
  - destruct Hc as [Hhandle Hqueue].
    destruct (deliver_handle w c ev) as [(Hs & Hq & Ha)|(Ha & Hq)].
    + split; [|by rewrite Hs, Hq].
      intros c0 Hc0. destruct Ha as [Ha|Ha]; [|congruence].
      rewrite Ha in Hc0. destruct (Hhandle c0 Hc0) as (Hst & r & Hrun & Hab).
      split; [congruence|].
      destruct (deliver_keeps_flag w c0 c ev r Hrun) as (r' & Hrun' & Hab').
      exists r'. split; [exact Hrun'|congruence].
    + split; [|exact Hq]. intros c0 Hc0. congruence.
Qed.

Lemma coherent_reachable w : reachable w -> coherent w.
Proof.
  intros (tree & actions & ->).
  induction actions as [|a actions IH] using rev_ind.
  - split; [discriminate|discriminate].
  - unfold perform in *. rewrite foldl_app. cbn [foldl]. by apply coherent_step.
Qed.

(** X12: in every state the hook can reach, a registered cancellation
    handle means that the status is [streaming] and that the stream the
    handle belongs to was not aborted. *)
Theorem handle_means_streaming w (c : nat) :
  reachable w ->
  abortRef w = Some c ->
  status w = Streaming /\ exists r, runs w !! c = Some r /\ aborted r = false.
Proof. intros Hreach. by apply coherent_reachable. Qed.

(** X13: in every state the hook can reach, the status [awaiting_approval]
    comes with a non-empty queue, so that a pending approval is exposed,
    and with no registered cancellation handle. *)
Theorem awaiting_means_pending w :
  reachable w ->
  status w = AwaitingApproval ->
  is_Some (pendingApproval w) /\ abortRef w = None.
Proof.
  intros Hreach Hst. destruct (coherent_reachable w Hreach) as [Hhandle Hqueue].
  split.
  - unfold pendingApproval. specialize (Hqueue Hst).
    destruct (pendingApprovals w); [done|]. by eexists.
  - destruct (abortRef w) as [c|] eqn:Hc; [|reflexivity].
    destruct (Hhandle c eq_refl) as [Hs _]. congruence.
Qed.

End InvariantFacts.

(** ** Message ids *)

Section IdFacts.
Context {FileTree : Type} `{FileTreeOps FileTree}.

Implicit Types w : World FileTree.

Lemma findIndex_None {A} (p : A -> bool) (l : list A) :
  findIndex p l = None -> Forall (fun x => p x = false) l.
Proof.
  induction l as [|x l IH]; [constructor|]. cbn.
  destruct (p x) eqn:Hp; [discriminate|].
  destruct (findIndex p l); [discriminate|]. constructor; auto.
Qed.

Lemma ids_alter (g : DisplayMessage -> DisplayMessage) (i : nat) (l : list DisplayMessage) :
  (forall m, dm_id (g m) = dm_id m) -> dm_id <$> alter g i l = dm_id <$> l.
Proof.
  intros Hg. revert i. induction l as [|m l IH]; intros i; [reflexivity|].
  destruct i as [|i]; cbn; [by rewrite Hg|by rewrite IH].
Qed.

(** Publishing under an id either rewrites the message with that id or
    appends one. *)
Lemma ids_updateAssistantMessage w id content toolCalls :
  dm_id <$> messages (updateAssistantMessage id content toolCalls w)
  = if decide (id ∈ dm_id <$> messages w) then dm_id <$> messages w
    else (dm_id <$> messages w) ++ [id].
Proof.
  unfold updateAssistantMessage. cbn [messages setMessages].
  destruct (findIndex _ (messages w)) as [index|] eqn:Hfind.
  - rewrite ids_alter by done.
    destruct (decide (id ∈ dm_id <$> messages w)) as [|Hnot]; [reflexivity|].
    exfalso. apply Hnot. clear Hnot. revert index Hfind.
    induction (messages w) as [|m l IH]; intros index Hfind; [discriminate|].
    cbn in Hfind. rewrite fmap_cons.
    destruct (Nat.eqb_spec (dm_id m) id) as [<-|_]; [by left|].
    destruct (findIndex _ l) as [j|] eqn:Hj; [|discriminate].
    right. by apply (IH j).
  - apply findIndex_None in Hfind.
    destruct (decide (id ∈ dm_id <$> messages w)) as [Hin|_];
      [|by rewrite fmap_app].
    exfalso. apply list_elem_of_fmap in Hin as (m & -> & Hin).
    rewrite Forall_forall in Hfind. specialize (Hfind m Hin).
    by rewrite Nat.eqb_refl in Hfind.
Qed.

Lemma idsFresh_same w w' :
  messages w' = messages w -> messageCounter w' = messageCounter w -> runs w' = runs w ->
  idsFresh w -> idsFresh w'.
Proof. intros Hm Hn Hr. unfold idsFresh. by rewrite Hm, Hn, Hr. Qed.

Lemma idsFresh_updateAssistantMessage w id content toolCalls :
  id <= messageCounter w -> idsFresh w ->
  idsFresh (updateAssistantMessage id content toolCalls w).
Proof.
  intros Hid (Hnodup & Hbound & Hruns).
  assert (Hids := ids_updateAssistantMessage w id content toolCalls).
  split; [|split; [|exact Hruns]].
  - rewrite Hids. destruct (decide (id ∈ dm_id <$> messages w)); [exact Hnodup|].
    apply NoDup_app. split; [exact Hnodup|]. split; [|apply NoDup_singleton].
    intros x Hx ->%list_elem_of_singleton. done.
  - change (messageCounter (updateAssistantMessage id content toolCalls w))
      with (messageCounter w).
    assert (Hbound' : Forall (fun n => n <= messageCounter w) (dm_id <$> messages w))
      by (by apply Forall_fmap).
    apply (Forall_fmap dm_id (fun n => n <= messageCounter w)).
    rewrite Hids. destruct (decide (id ∈ dm_id <$> messages w)); [exact Hbound'|].
    apply Forall_app. split; [exact Hbound'|]. by constructor.
Qed.

Lemma idWithin_mono n n' r : n <= n' -> idWithin n r -> idWithin n' r.
Proof. intros Hle Hr id Hid. specialize (Hr id Hid). lia. Qed.

Lemma idsFresh_bump w n :
  messageCounter w <= n -> idsFresh w -> idsFresh (setMessageCounter n w).
Proof.
  intros Hle (Hnodup & Hbound & Hruns). split; [exact Hnodup|]. split.
  - eapply Forall_impl; [exact Hbound|]. cbn. intros m ?. lia.
  - eapply Forall_impl; [exact Hruns|]. intros r. by apply idWithin_mono.
Qed.

Lemma idsFresh_refresh w r0 :
  idsFresh w -> idWithin (messageCounter w) r0 ->
  idsFresh (refreshAssistantMessage r0 w).2
  /\ idWithin (messageCounter (refreshAssistantMessage r0 w).2) (refreshAssistantMessage r0 w).1
  /\ runs (refreshAssistantMessage r0 w).2 = runs w.
Proof.
  intros Hfresh Hr0. unfold refreshAssistantMessage.
  destruct (currentAssistantId r0) as [id|] eqn:Hid; cbn [fst snd].
  - split; [apply idsFresh_updateAssistantMessage; auto|]. by split.
  - split; [|split; [|reflexivity]].
    + apply idsFresh_updateAssistantMessage; [cbn; lia|].
      apply idsFresh_bump; [lia|exact Hfresh].
    + intros id. cbn. intros [= <-]. lia.
Qed.

Lemma idsFresh_suspend w c p r0 :
  idsFresh w -> idWithin (messageCounter w) r0 -> idsFresh (suspend c p r0 w).
Proof.
  intros (Hnodup & Hbound & Hruns) Hr0. split; [exact Hnodup|]. split; [exact Hbound|].
  cbn. by apply Forall_insert.
Qed.

Lemma idsFresh_abortCurrent w : idsFresh w -> idsFresh (abortCurrent w).
Proof.
  intros (Hnodup & Hbound & Hruns). unfold abortCurrent.
  destruct (abortRef w) as [c|]; [|done].
  split; [exact Hnodup|]. split; [exact Hbound|].
  cbn. by apply Forall_alter.
Qed.

Lemma idsFresh_runStream w ms : idsFresh w -> idsFresh (runStream ms w).
Proof.
  intros Hfresh. apply idsFresh_abortCurrent in Hfresh as (Hnodup & Hbound & Hruns).
  unfold runStream. split; [exact Hnodup|]. split; [exact Hbound|].
  cbn. apply Forall_app. split; [exact Hruns|].
  constructor; [|constructor]. intros id. discriminate.
Qed.

Lemma idsFresh_settle w current v : idsFresh w -> idsFresh (settle current v w).
Proof.
  intros (Hnodup & Hbound & Hruns).
  assert (Hmapped : idsFresh (executePendingTool current v w).2).
  { unfold executePendingTool. split; [|split; [|exact Hruns]]; cbn.
    - by rewrite <- list_fmap_compose.
    - by apply Forall_fmap. }
  unfold settle. destruct (executePendingTool current v w) as [next w1] eqn:Hex.
  cbn [snd] in Hmapped.
  case_match; [exact Hmapped|]. apply idsFresh_runStream. exact Hmapped.
Qed.

Lemma idsFresh_deliver w c ev : idsFresh w -> idsFresh (deliver c ev w).
Proof.
  intros Hfresh. unfold deliver.
  destruct (runs w !! c) as [r|] eqn:Hrun; [|exact Hfresh].
  assert (Hr : idWithin (messageCounter w) r).
  { destruct Hfresh as (_ & _ & Hruns). rewrite Forall_lookup in Hruns. by eapply Hruns. }
  assert (Hpublish : forall p r0,
            idWithin (messageCounter w) r0 ->
            idsFresh (let '(r1, w1) := refreshAssistantMessage r0 w in suspend c p r1 w1)).
  { intros p r0 Hr0. destruct (idsFresh_refresh w r0 Hfresh Hr0) as (Hf & Hw & _).
    destruct (refreshAssistantMessage r0 w) as [r1 w1]. by apply idsFresh_suspend. }
  assert (Hquiet : forall p w0,
            messages w0 = messages w -> messageCounter w0 = messageCounter w ->
            runs w0 = runs w -> idsFresh (suspend c p r w0)).
  { intros p w0 Hm Hn Hrs. apply idsFresh_suspend; [by apply (idsFresh_same w)|].
    by rewrite Hn. }
  destruct (phase r), ev as [| |part| | |steps|]; try exact Hfresh; try (by apply Hquiet).
  - unfold onPart, onAborted, onStreamError.
    destruct (aborted r); [by apply Hquiet|].
    destruct part as [text|id name input|id output| |];
      try (by apply Hquiet); try (by apply Hpublish).
    + destruct (getToolCallArgs _); [by apply Hpublish|by apply Hquiet].
    + apply idsFresh_suspend; [exact Hfresh|]. intros id. discriminate.
  - unfold onStreamError. destruct (aborted r); by apply Hquiet.
  - unfold onAborted. destruct (aborted r); by apply Hquiet.
  - unfold onSteps. destruct (reconcile steps); [|by apply Hquiet].
    destruct (getPendingToolCalls steps) as [q|]; [|by apply Hquiet].
    destruct (Nat.ltb 0 (length q)); by apply Hquiet.
Qed.

Lemma approvedResult_counter current w :
  messageCounter (approvedResult current w).2 = messageCounter w.
Proof.
  unfold approvedResult, runTool.
  destruct (toolName current).
  - destruct (getProp (args current) "path") as [| | | |p| |]; try reflexivity.
    destruct (getProp (args current) "oldContent") as [| | | |o| |]; try reflexivity.
    destruct (getProp (args current) "newContent") as [| | | |n| |]; try reflexivity.
    cbn [fileTree emit].
    destruct (executeEditFile_returns
                {| edit_path := p; oldContent := o; newContent := n |} (fileTree w))
      as (r & tree' & -> & _).
    by destruct (succeeded (toolResultValue r)).
  - destruct (getProp (args current) "path") as [| | | |p| |]; try reflexivity.
    destruct (Nat.eqb (strlen p) 0); [reflexivity|].
    cbn [fileTree emit].
    destruct (executeDeleteFile_returns p (fileTree w)) as (r & tree' & -> & _).
    by destruct (succeeded (toolResultValue r)).
Qed.

Lemma idsFresh_push w m :
  dm_id m = S (messageCounter w) -> idsFresh w ->
  idsFresh (setMessages (fun prev => prev ++ [m]) (setMessageCounter (dm_id m) w)).
Proof.
  intros Hid (Hnodup & Hbound & Hruns). split; [|split]; cbn.
  - rewrite fmap_app. apply NoDup_app. split; [exact Hnodup|].
    split; [|apply NoDup_singleton].
    intros x Hx Hx'. cbn in Hx'. apply list_elem_of_singleton in Hx' as ->.
    apply list_elem_of_fmap in Hx as (m' & Hm' & Hin).
    rewrite Forall_forall in Hbound. specialize (Hbound m' Hin). lia.
  - apply Forall_app. split; [|by repeat constructor].
    eapply Forall_impl; [exact Hbound|]. cbn. intros m' ?. lia.
  - eapply Forall_impl; [exact Hruns|]. intros r. apply idWithin_mono. lia.
Qed.

Lemma idsFresh_step w a : idsFresh w -> idsFresh (step a w).
Proof.
  intros Hfresh. destruct a as [text| | | | |c ev]; cbn [step].
  - unfold send. destruct (status w); try exact Hfresh;
      (destruct (abortRef w); [exact Hfresh|]);
      (destruct (String.eqb (trim text) ""); [exact Hfresh|]);
      apply idsFresh_runStream;
      apply (idsFresh_push (setMessagesRef _ w)
               {| dm_id := S (messageCounter w); dm_role := user;
                  dm_content := trim text; dm_toolCalls := [] |});
      [reflexivity|by apply (idsFresh_same w)|reflexivity|by apply (idsFresh_same w)].
  - unfold approve. destruct (pendingApprovals w) as [|current rest]; [exact Hfresh|].
    destruct (approvedResult_frame current w)
      as (v & w1 & Hw1 & Hm & _ & _ & _ & _ & Hr & _).
    rewrite Hw1. apply idsFresh_settle. apply (idsFresh_same w); try done.
    by rewrite <- (approvedResult_counter current w), Hw1.
  - unfold reject. destruct (pendingApprovals w) as [|current rest]; [exact Hfresh|].
    by apply idsFresh_settle.
  - apply (idsFresh_same (abortCurrent w)); try done. by apply idsFresh_abortCurrent.
  - destruct (idsFresh_abortCurrent w Hfresh) as (_ & _ & Hruns).
    split; [constructor|]. split; [constructor|exact Hruns].
  - by apply idsFresh_deliver.
Qed.

Lemma idsFresh_reachable w : reachable w -> idsFresh w.
Proof.
  intros (tree & actions & ->).
  induction actions as [|a actions IH] using rev_ind.
  - split; [constructor|]. split; constructor.
  - unfold perform in *. rewrite foldl_app. cbn [foldl]. by apply idsFresh_step.
Qed.

(** X14: in every state the hook can reach, the ids of the displayed
    messages are pairwise distinct and none is beyond [messageCounter]:
    the ids given to user messages by [send] and to assistant messages by
    the stream never collide, also after a reset. *)
Theorem transcript_ids_distinct w :
  reachable w ->
  NoDup (dm_id <$> messages w)
  /\ Forall (fun m => dm_id m <= messageCounter w) (messages w).
Proof.
  intros Hreach. destruct (idsFresh_reachable w Hreach) as (Hnodup & Hbound & _).
  by split.
Qed.

End IdFacts.

Lemma handle_means_streaming_witness :
  status midStream = Streaming
  /\ exists r, runs midStream !! 0 = Some r /\ aborted r = false.
Proof.
  apply (handle_means_streaming midStream 0); [|reflexivity].
  exists startTree, [Send " add a var "; Backend 0 StreamOpened;
                     Backend 0 (Yield (PartTextDelta "Adding"))].
  reflexivity.
Defined.

Lemma awaiting_means_pending_witness :
  is_Some (pendingApproval approvalTurn) /\ abortRef approvalTurn = None.
Proof.
  apply (awaiting_means_pending approvalTurn); [|reflexivity].
  unfold approvalTurn. by eexists _, _.
Defined.

Lemma transcript_ids_distinct_witness :
  NoDup (dm_id <$> messages approvalTurn)
  /\ Forall (fun m => dm_id m <= messageCounter approvalTurn) (messages approvalTurn).
Proof.
  apply (transcript_ids_distinct approvalTurn).
  unfold approvalTurn. by eexists _, _.
Defined.

(** ** What the user said *)

Section OwnershipFacts.
Context {FileTree : Type} `{FileTreeOps FileTree}.

Implicit Types w : World FileTree.

(** The shapes a continuation of [runStream] can take: it leaves the
    transcript alone, or it publishes the accumulator of its own run. *)
Lemma deliver_cases w c ev :
  (messages (deliver c ev w) = messages w
   /\ messageCounter (deliver c ev w) = messageCounter w
   /\ (runs (deliver c ev w) = runs w
       \/ exists r p r', runs w !! c = Some r
            /\ runs (deliver c ev w) = <[c := withPhase p r']> (runs w)
            /\ (currentAssistantId r' = currentAssistantId r
                \/ currentAssistantId r' = None)))
  \/ (exists r r0 p, runs w !! c = Some r
        /\ currentAssistantId r0 = currentAssistantId r
        /\ deliver c ev w
           = (let '(r1, w1) := refreshAssistantMessage r0 w in suspend c p r1 w1)).
Proof.
  unfold deliver. destruct (runs w !! c) as [r|] eqn:Hrun; [|left; by repeat split; left].
  assert (Hquiet : forall p r' w0,
            messages w0 = messages w -> messageCounter w0 = messageCounter w ->
            runs w0 = runs w ->
            currentAssistantId r' = currentAssistantId r \/ currentAssistantId r' = None ->
            messages (suspend c p r' w0) = messages w
            /\ messageCounter (suspend c p r' w0) = messageCounter w
            /\ (runs (suspend c p r' w0) = runs w
                \/ exists r1 p1 r1', Some r = Some r1
                     /\ runs (suspend c p r' w0) = <[c := withPhase p1 r1']> (runs w)
                     /\ (currentAssistantId r1' = currentAssistantId r1
                         \/ currentAssistantId r1' = None))).
  { intros p r' w0 Hm Hn Hr Hid. split; [exact Hm|]. split; [exact Hn|].
    right. exists r, p, r'. split; [done|]. split; [|exact Hid]. cbn. by rewrite Hr. }
  destruct (phase r), ev as [| |part| | |steps|];
    try (left; by repeat split; left); try (left; apply Hquiet; by auto).
  - unfold onPart, onAborted, onStreamError.
    destruct (aborted r); [left; apply Hquiet; by auto|].
    destruct part as [text|id name input|id output| |];
      try (left; apply Hquiet; by auto);
      try (right; eexists r, _, Consuming; split; [done|]; split; [|reflexivity]; done).
    destruct (getToolCallArgs _); [|left; apply Hquiet; by auto].
    right. eexists r, _, Consuming. split; [done|]. split; [|reflexivity]. done.
  - unfold onStreamError. destruct (aborted r); left; apply Hquiet; by auto.
  - unfold onAborted. destruct (aborted r); left; apply Hquiet; by auto.
  - unfold onSteps. destruct (reconcile steps); [|left; apply Hquiet; by auto].
    destruct (getPendingToolCalls steps) as [q|]; [|left; apply Hquiet; by auto].
    destruct (Nat.ltb 0 (length q)); left; apply Hquiet; by auto.
Qed.

Lemma elem_of_alter_inv {A} (g : A -> A) (i : nat) (l : list A) (x : A) :
  x ∈ alter g i l -> x ∈ l \/ exists x0, x0 ∈ l /\ x = g x0.
Proof.
  revert i. induction l as [|y l IH]; intros i; [by intros ?%elem_of_nil|].
  destruct i as [|i]; cbn; intros Hin; apply elem_of_cons in Hin as [-> | Hin].
  - right. exists y. split; [by left|done].
  - left. by right.
  - left. by left.
  - destruct (IH i Hin) as [Hl | (x0 & Hx0 & ->)].
    + left. by right.
    + right. exists x0. split; [by right|done].
Qed.

(** Where a published message comes from: it stands for a message that was
    there, with its id and role, or it is a new assistant message. *)
Lemma mem_updateAssistantMessage w id content toolCalls m :
  m ∈ messages (updateAssistantMessage id content toolCalls w) ->
  (exists m0, m0 ∈ messages w /\ dm_id m0 = dm_id m /\ dm_role m0 = dm_role m)
  \/ (dm_id m = id /\ dm_role m = assistant /\ id ∉ dm_id <$> messages w).
Proof.
  unfold updateAssistantMessage. cbn [messages setMessages].
  destruct (findIndex _ (messages w)) as [index|] eqn:Hfind.
  - intros [Hin | (m0 & Hin & ->)]%elem_of_alter_inv; left; [by exists m|by exists m0].
  - intros [Hin | ->%list_elem_of_singleton]%elem_of_app; [left; by exists m|].
    right. split; [done|]. split; [done|].
    apply findIndex_None in Hfind. intros (m0 & -> & Hin)%list_elem_of_fmap.
    rewrite Forall_forall in Hfind. specialize (Hfind m0 Hin).
    by rewrite Nat.eqb_refl in Hfind.
Qed.

Lemma ownsAssistant_update w id content toolCalls r :
  ownsAssistant (messages w) r ->
  ownsAssistant (messages (updateAssistantMessage id content toolCalls w)) r.
Proof.
  intros Hown id' Hid'. apply Forall_forall. intros m Hin Hm.
  apply mem_updateAssistantMessage in Hin as [(m0 & Hin0 & Hid0 & Hrole0) | (_ & Hrole & _)];
    [|exact Hrole].
  specialize (Hown id' Hid'). rewrite Forall_forall in Hown.
  rewrite <- Hrole0. apply Hown; [exact Hin0|congruence].
Qed.

Lemma ownIds_same w w' :
  messages w' = messages w -> runs w' = runs w -> ownIds w -> ownIds w'.
Proof. intros Hm Hr. unfold ownIds. by rewrite Hm, Hr. Qed.

Lemma ownsAssistant_same_id ms r r' :
  currentAssistantId r' = currentAssistantId r \/ currentAssistantId r' = None ->
  ownsAssistant ms r -> ownsAssistant ms r'.
Proof.
  intros [Hid | Hid] Hown id Hid'; [apply Hown; congruence|congruence].
Qed.

Lemma ownIds_publish w c p r r0 :
  idsFresh w -> ownIds w -> runs w !! c = Some r ->
  currentAssistantId r0 = currentAssistantId r ->
  ownIds (let '(r1, w1) := refreshAssistantMessage r0 w in suspend c p r1 w1).
Proof.
  intros (_ & Hbound & _) Hown Hrun Hid.
  assert (Hr : ownsAssistant (messages w) r).
  { unfold ownIds in Hown. rewrite Forall_lookup in Hown. by eapply Hown. }
  unfold refreshAssistantMessage.
  destruct (currentAssistantId r0) as [id|] eqn:Hid0; unfold ownIds; cbn [suspend runs setRuns messages].
  - apply Forall_insert.
    + eapply Forall_impl; [exact Hown|]. intros r'. apply ownsAssistant_update.
    + apply ownsAssistant_update. apply (ownsAssistant_same_id _ r); [|exact Hr].
      left. cbn. congruence.
  - apply Forall_insert.
    + eapply Forall_impl; [exact Hown|]. intros r'.
      apply (ownsAssistant_update (setMessageCounter (S (messageCounter w)) w)).
    + intros id'. cbn. intros [= <-]. apply Forall_forall. intros m Hin Hm.
      apply (mem_updateAssistantMessage (setMessageCounter (S (messageCounter w)) w))
        in Hin as [(m0 & Hin0 & Hid1 & _) | (_ & Hrole & _)]; [|exact Hrole].
      exfalso. cbn in Hin0. rewrite Forall_forall in Hbound.
      specialize (Hbound m0 Hin0). lia.
Qed.

Lemma ownIds_abortCurrent w : ownIds w -> ownIds (abortCurrent w).
Proof.
  intros Hown. unfold abortCurrent. destruct (abortRef w) as [c|]; [|done].
  unfold ownIds. cbn. apply Forall_alter; [exact Hown|]. intros r _ Hr. exact Hr.
Qed.

Lemma ownIds_runStream w ms : ownIds w -> ownIds (runStream ms w).
Proof.
  intros Hown%ownIds_abortCurrent. unfold runStream, ownIds. cbn.
  apply Forall_app. split; [exact Hown|]. constructor; [|constructor].
  intros id. discriminate.
Qed.

Lemma ownIds_settle w current v : ownIds w -> ownIds (settle current v w).
Proof.
  intros Hown.
  assert (Hmapped : ownIds (executePendingTool current v w).2).
  { unfold executePendingTool, ownIds. cbn.
    eapply Forall_impl; [exact Hown|]. intros r Hr id Hid.
    apply Forall_fmap. specialize (Hr id Hid).
    eapply Forall_impl; [exact Hr|]. by cbn. }
  unfold settle. destruct (executePendingTool current v w) as [next w1] eqn:Hex.
  cbn [snd] in Hmapped.
  case_match; [exact Hmapped|]. apply ownIds_runStream. exact Hmapped.
Qed.

Lemma ownIds_step w a : idsFresh w -> ownIds w -> ownIds (step a w).
Proof.
  intros Hfresh Hown. destruct a as [text| | | | |c ev]; cbn [step].
  - assert (Hpush : ownIds (setMessages (fun prev =>
                       prev ++ [{| dm_id := S (messageCounter w); dm_role := user;
                                   dm_content := trim text; dm_toolCalls := [] |}])
                     (setMessageCounter (S (messageCounter w))
                        (setMessagesRef (messagesRef w ++ [UserMessage (trim text)]) w)))).
    { destruct Hfresh as (_ & _ & Hruns). unfold ownIds. cbn.
      rewrite Forall_forall in Hruns. unfold ownIds in Hown. rewrite Forall_forall in Hown.
      apply Forall_forall. intros r Hr id Hid. apply Forall_app. split.
      - by apply (Hown r Hr).
      - constructor; [|constructor]. cbn. intros <-.
        specialize (Hruns r Hr _ Hid). lia. }
    unfold send. destruct (status w); try exact Hown;
      (destruct (abortRef w); [exact Hown|]);
      (destruct (String.eqb (trim text) ""); [exact Hown|]);
      apply ownIds_runStream; exact Hpush.
  - unfold approve. destruct (pendingApprovals w) as [|current rest]; [exact Hown|].
    destruct (approvedResult_frame current w)
      as (v & w1 & Hw1 & Hm & _ & _ & _ & _ & Hr & _).
    rewrite Hw1. apply ownIds_settle. by apply (ownIds_same w).
  - unfold reject. destruct (pendingApprovals w) as [|current rest]; [exact Hown|].
    by apply ownIds_settle.
  - apply (ownIds_same (abortCurrent w)); try done. by apply ownIds_abortCurrent.
  - unfold ownIds. cbn. apply ownIds_abortCurrent in Hown.
    eapply Forall_impl; [exact Hown|]. intros r _ id _. constructor.
  - destruct (deliver_cases w c ev)
      as [(Hm & _ & [Hr | (r & p & r' & Hrun & Hr & Hid)]) | (r & r0 & p & Hrun & Hid & ->)].
    + by apply (ownIds_same w).
    + unfold ownIds. rewrite Hm, Hr. apply Forall_insert; [exact Hown|].
      apply (ownsAssistant_same_id _ r); [exact Hid|].
      unfold ownIds in Hown. rewrite Forall_lookup in Hown. by eapply Hown.
    + by apply (ownIds_publish w c p r r0).
Qed.

Lemma ownIds_reachable w : reachable w -> idsFresh w /\ ownIds w.
Proof.
  intros (tree & actions & ->).
  induction actions as [|a actions IH] using rev_ind.
  - split; [split; [constructor|split; constructor]|constructor].
  - unfold perform in *. rewrite foldl_app. cbn [foldl]. destruct IH as [Hf Ho].
    split; [by apply idsFresh_step|by apply ownIds_step].
Qed.

Lemma userSaid_same w w' : messages w' = messages w -> userSaid w' = userSaid w.
Proof. intros Hm. unfold userSaid. by rewrite Hm. Qed.

Lemma said_alter (g : DisplayMessage -> DisplayMessage) (id : nat)
    (l : list DisplayMessage) (i : nat) :
  (forall m, dm_role (g m) = dm_role m) ->
  Forall (fun m => dm_id m = id -> dm_role m = assistant) l ->
  findIndex (fun m => Nat.eqb (dm_id m) id) l = Some i ->
  List.filter isUser (alter g i l) = List.filter isUser l.
Proof.
  intros Hg Hown. revert i. induction Hown as [|m l Hm Hown IH]; intros i; [discriminate|].
  cbn [findIndex]. destruct (Nat.eqb_spec (dm_id m) id) as [Hid|Hid].
  - intros [= <-]. cbn [alter list_alter List.filter].
    assert (Hm' : isUser m = false) by (unfold isUser; by rewrite (Hm Hid)).
    assert (Hgm : isUser (g m) = false) by (unfold isUser; by rewrite Hg, (Hm Hid)).
    by rewrite Hm', Hgm.
  - destruct (findIndex _ l) as [j|] eqn:Hj; [|discriminate]. intros [= <-].
    cbn [alter list_alter List.filter]. by rewrite (IH j).
Qed.

Lemma userSaid_updateAssistantMessage w id content toolCalls :
  Forall (fun m => dm_id m = id -> dm_role m = assistant) (messages w) ->
  userSaid (updateAssistantMessage id content toolCalls w) = userSaid w.
Proof.
  intros Hown. unfold userSaid, updateAssistantMessage. cbn [messages setMessages].
  destruct (findIndex _ (messages w)) as [index|] eqn:Hfind.
  - by rewrite (said_alter _ id _ index).
  - rewrite List.filter_app. cbn. by rewrite List.app_nil_r.
Qed.

Lemma said_fmap (g : DisplayMessage -> DisplayMessage) (l : list DisplayMessage) :
  (forall m, dm_id (g m) = dm_id m /\ dm_role (g m) = dm_role m
             /\ dm_content (g m) = dm_content m) ->
  (fun message => (dm_id message, dm_content message)) <$> List.filter isUser (g <$> l)
  = (fun message => (dm_id message, dm_content message)) <$> List.filter isUser l.
Proof.
  intros Hg. induction l as [|m l IH]; [reflexivity|].
  rewrite fmap_cons. cbn [List.filter].
  destruct (Hg m) as (Hid & Hrole & Hcontent).
  assert (Huser : isUser (g m) = isUser m) by (unfold isUser; by rewrite Hrole).
  rewrite Huser. destruct (isUser m); [|exact IH].
  rewrite !fmap_cons, IH, Hid, Hcontent. reflexivity.
Qed.

Lemma userSaid_settle w current v : userSaid (settle current v w) = userSaid w.
Proof.
  assert (Hmapped : userSaid (executePendingTool current v w).2 = userSaid w).
  { unfold executePendingTool, userSaid. cbn [snd messages setMessages setMessagesRef].
    by apply said_fmap. }
  unfold settle. destruct (executePendingTool current v w) as [next w1] eqn:Hex.
  cbn [snd] in Hmapped. case_match; [exact Hmapped|].
  rewrite <- Hmapped. apply userSaid_same.
  by destruct (runStream_frame next (setPendingApprovals [] w1)) as (-> & _).
Qed.

(** X15: what the transcript shows as said by the user is changed by
    [send] and [reset] only.  Nothing the stream delivers, and neither
    [approve], [reject] nor [stop], alters, removes or reorders a user
    message; an accepted [send] appends one message with the trimmed text
    under a fresh id. *)
Theorem user_messages_kept w a :
  reachable w -> a <> Reset ->
  match a with
  | Send text =>
      userSaid (step a w) = userSaid w
      \/ userSaid (step a w) = userSaid w ++ [(S (messageCounter w), trim text)]
  | _ => userSaid (step a w) = userSaid w
  end.
Proof.
  intros [Hfresh Hown]%ownIds_reachable Hreset.
  destruct a as [text| | | | |c ev]; cbn [step].
  - unfold send. destruct (status w); try (by left);
      (destruct (abortRef w); [by left|]);
      (destruct (String.eqb (trim text) ""); [by left|]);
      right; unfold userSaid; rewrite (proj1 (runStream_frame _ _));
      cbn [messages setMessages setMessageCounter setMessagesRef messageCounter];
      rewrite List.filter_app, fmap_app; reflexivity.
  - unfold approve. destruct (pendingApprovals w) as [|current rest]; [done|].
    destruct (approvedResult_frame current w) as (v & w1 & Hw1 & Hm & _).
    rewrite Hw1, userSaid_settle. by apply userSaid_same.
  - unfold reject. destruct (pendingApprovals w) as [|current rest]; [done|].
    apply userSaid_settle.
  - apply userSaid_same. unfold stop, abortCurrent. by destruct (abortRef w).
  - done.
  - destruct (deliver_cases w c ev)
      as [(Hm & _) | (r & r0 & p & Hrun & Hid & ->)]; [by apply userSaid_same|].
    unfold refreshAssistantMessage.
    destruct (currentAssistantId r0) as [id|] eqn:Hid0.
    + transitivity (userSaid (updateAssistantMessage id (currentText r0)
                                (currentToolCalls r0) w)); [reflexivity|].
      apply userSaid_updateAssistantMessage.
      unfold ownIds in Hown. rewrite Forall_lookup in Hown.
      apply (Hown c r Hrun). congruence.
    + transitivity (userSaid (updateAssistantMessage (S (messageCounter w))
                                (currentText r0) (currentToolCalls r0) w));
        [reflexivity|].
      apply userSaid_updateAssistantMessage.
      destruct Hfresh as (_ & Hbound & _).
      eapply Forall_impl; [exact Hbound|]. cbn. intros m ? ?. lia.
Qed.

End OwnershipFacts.

Lemma user_messages_kept_witness :
  userSaid (step (Backend 0 (Yield (PartTextDelta " a variable"))) midStream)
  = userSaid midStream.
Proof.
  apply (user_messages_kept midStream (Backend 0 (Yield (PartTextDelta " a variable"))));
    [|discriminate].
  exists startTree, [Send " add a var "; Backend 0 StreamOpened;
                     Backend 0 (Yield (PartTextDelta "Adding"))].
  reflexivity.
Defined.

(** ** A cancelled stream that resumes late *)

Section StaleFacts.
Context {FileTree : Type} `{FileTreeOps FileTree}.

Implicit Types w : World FileTree.

(** X16: a stream that was stopped clears the handle and the status when
    it resumes, whichever stream they belong to by then.  If a new message
    is sent after [stop] and before the stopped stream sees its next part,
    that part sets the status to [idle] and clears [abortRef] although the
    new stream is running: the new stream is not aborted, and [stop] can
    no longer abort it. *)
Theorem stale_stream_orphans_new_one w (c : nat) (r : Run) (text : string)
    (part : StreamPart) :
  abortRef w = Some c -> runs w !! c = Some r -> phase r = Consuming ->
  trim text <> "" ->
  let w' := perform [Stop; Send text; Backend c (Yield part)] w in
  status w' = Idle /\ abortRef w' = None
  /\ (exists r', runs w' !! length (runs w) = Some r'
        /\ aborted r' = false /\ phase r' = AwaitStream)
  /\ runs (stop w') = runs w'.
Proof.
  intros Hhandle Hrun Hphase Htext.
  assert (Hlt : c < length (runs w)) by (by eapply lookup_lt_Some).
  apply String.eqb_neq in Htext.
  cbn [perform foldl step].
  assert (Hstop : status (stop w) = Idle /\ abortRef (stop w) = None
                  /\ runs (stop w) = alter withAborted c (runs w)).
  { unfold stop, abortCurrent. rewrite Hhandle. by cbn. }
  destruct Hstop as (Hs1 & Ha1 & Hr1).
  remember (stop w) as w1 eqn:Hw1. clear Hw1.
  set (ms := messagesRef w1 ++ [UserMessage (trim text)]).
  set (w1' := setMessages (fun prev =>
                 prev ++ [{| dm_id := S (messageCounter w1); dm_role := user;
                             dm_content := trim text; dm_toolCalls := [] |}])
               (setMessageCounter (S (messageCounter w1)) (setMessagesRef ms w1))).
  assert (Hsend : send text w1 = runStream ms w1').
  { unfold send. by rewrite Hs1, Ha1, Htext. }
  rewrite Hsend.
  assert (Hruns2 : runs (runStream ms w1')
                   = alter withAborted c (runs w)
                     ++ [{| aborted := false; coreMessages := ms; phase := AwaitStream;
                            currentAssistantId := None; currentText := "";
                            currentToolCalls := [] |}]).
  { unfold runStream, abortCurrent. cbn. rewrite Ha1. cbn. by rewrite Hr1. }
  remember (runStream ms w1') as w2 eqn:Hw2. clear Hw2.
  assert (Hold : runs w2 !! c = Some (withAborted r)).
  { rewrite Hruns2, lookup_app_l by (by rewrite length_alter).
    by rewrite list_lookup_alter_eq, Hrun. }
  assert (Hdeliver : deliver c (Yield part) w2
                     = suspend c Returned (withAborted r)
                         (setAbortRef None (setStatus Idle w2))).
  { unfold deliver. rewrite Hold. cbn [phase withAborted]. rewrite Hphase.
    unfold onPart. cbn [aborted withAborted]. reflexivity. }
  rewrite Hdeliver.
  split; [reflexivity|]. split; [reflexivity|]. split.
  - eexists. split.
    + cbn [suspend runs setRuns setAbortRef setStatus].
      rewrite list_lookup_insert_ne by lia.
      rewrite Hruns2, lookup_app_r by (by rewrite length_alter).
      by rewrite length_alter, Nat.sub_diag.
    + split; reflexivity.
  - reflexivity.
Qed.

End StaleFacts.

Lemma stale_stream_orphans_new_one_witness :
  let w' := perform [Stop; Send "again"; Backend 0 (Yield PartOther)] midStream in
  status w' = Idle /\ abortRef w' = None
  /\ (exists r', runs w' !! length (runs midStream) = Some r'
        /\ aborted r' = false /\ phase r' = AwaitStream)
  /\ runs (stop w') = runs w'.
Proof.
  eapply (stale_stream_orphans_new_one midStream 0 _ "again" PartOther);
    [reflexivity|vm_compute; reflexivity|reflexivity|vm_compute; discriminate].
Defined.

(** ** The queue of approvals *)

Lemma mapC_Forall {A B} (f : A -> Completion B) (P : B -> Prop) (l : list A) (ys : list B) :
  (forall x y, f x = Normal y -> P y) -> mapC f l = Normal ys -> Forall P ys.
Proof.
  intros Hf. revert ys. induction l as [|x l IH]; intros ys; cbn.
  - intros [= <-]. constructor.
  - destruct (f x) as [y|] eqn:Hx; [|discriminate].
    destruct (mapC f l) as [ys'|]; [|discriminate]. intros [= <-].
    constructor; [by eapply Hf|by apply IH].
Qed.

Lemma getToolCallArgs_record (toolCall : StreamToolCall) (a : JsValue) :
  getToolCallArgs toolCall = Normal a -> isRecord a = true.
Proof.
  unfold getToolCallArgs. destruct (isRecord _) eqn:Hrec; cbn; [|discriminate].
  by intros [= <-].
Qed.

Lemma getPendingToolCalls_record (steps : list Step) (q : list PendingToolCall) :
  getPendingToolCalls steps = Normal q ->
  Forall (fun pending => isRecord (args pending) = true) q.
Proof.
  unfold getPendingToolCalls. destruct (last steps) as [lastStep|];
    [|intros [= <-]; constructor].
  apply mapC_Forall. intros toolCall pending.
  destruct (getToolCallArgs toolCall) as [a|] eqn:Hargs; [|discriminate].
  intros [= <-]. cbn. by eapply getToolCallArgs_record.
Qed.

Section QueueInvariant.
Context {FileTree : Type} `{FileTreeOps FileTree}.

Implicit Types w : World FileTree.

Lemma objectArgs_same w w' :
  pendingApprovals w' = pendingApprovals w -> objectArgs w -> objectArgs w'.
Proof. intros Hq. unfold objectArgs. by rewrite Hq. Qed.

Lemma objectArgs_settle w current v : objectArgs w -> objectArgs (settle current v w).
Proof.
  intros Hobj. unfold settle.
  destruct (executePendingTool current v w) as [next w1] eqn:Hex.
  assert (Hq : pendingApprovals w1 = pendingApprovals w).
  { unfold executePendingTool in Hex. by injection Hex as _ <-. }
  case_match; unfold objectArgs.
  - cbn. rewrite Hq. by apply Forall_drop.
  - rewrite (proj1 (proj2 (runStream_frame _ _))). constructor.
Qed.

Lemma objectArgs_deliver w c ev : objectArgs w -> objectArgs (deliver c ev w).
Proof.
  intros Hobj. unfold deliver. destruct (runs w !! c) as [r|]; [|exact Hobj].
  assert (Hpublish : forall p r0,
            objectArgs (let '(r1, w1) := refreshAssistantMessage r0 w in
                        suspend c p r1 w1)).
  { intros p r0. unfold refreshAssistantMessage. by destruct (currentAssistantId r0). }
  destruct (phase r), ev as [| |part| | |steps|]; try exact Hobj.
  - unfold onPart, onAborted, onStreamError.
    destruct (aborted r); [exact Hobj|].
    destruct part as [text|id name input|id output| |];
      try exact Hobj; try apply Hpublish.
    destruct (getToolCallArgs _); [apply Hpublish|exact Hobj].
  - unfold onStreamError. by destruct (aborted r).
  - unfold onAborted. by destruct (aborted r).
  - unfold onSteps. destruct (reconcile steps); [|exact Hobj].
    destruct (getPendingToolCalls steps) as [q|] eqn:Hq; [|exact Hobj].
    destruct (Nat.ltb 0 (length q)); unfold objectArgs; cbn; [|constructor].
    by eapply getPendingToolCalls_record.
Qed.

Lemma objectArgs_step w a : objectArgs w -> objectArgs (step a w).
Proof.
  intros Hobj. destruct a as [text| | | | |c ev]; cbn [step].
  - unfold send. repeat case_match; try exact Hobj;
      (apply (objectArgs_same w); [|exact Hobj]);
      by rewrite (proj1 (proj2 (runStream_frame _ _))).
  - unfold approve. destruct (pendingApprovals w) as [|current rest] eqn:Hq; [exact Hobj|].
    destruct (approvedResult_frame current w) as (v & w1 & -> & _ & _ & Hq1 & _).
    apply objectArgs_settle. apply (objectArgs_same w); [|exact Hobj]. exact Hq1.
  - unfold reject. destruct (pendingApprovals w) as [|current rest] eqn:Hq; [exact Hobj|].
    by apply objectArgs_settle.
  - apply (objectArgs_same w); [|exact Hobj].
    unfold stop, abortCurrent. by destruct (abortRef w).
  - constructor.
  - by apply objectArgs_deliver.
Qed.

(** X17: in every state the hook can reach, every call in the queue of
    approvals holds an object as its arguments, so that [approve] reads
    [path], [oldContent] and [newContent] off an object: a tool call whose
    input is not an object never gets into the queue. *)
Theorem queued_args_are_objects w :
  reachable w ->
  Forall (fun pending => isRecord (args pending) = true) (pendingApprovals w).
Proof.
  intros (tree & actions & ->).
  induction actions as [|a actions IH] using rev_ind.
  - constructor.
  - unfold perform in *. rewrite foldl_app. cbn [foldl]. by apply objectArgs_step.
Qed.

End QueueInvariant.

Lemma queued_args_are_objects_witness :
  Forall (fun pending => isRecord (args pending) = true) (pendingApprovals approvalTurn).
Proof.
  apply (queued_args_are_objects approvalTurn).
  unfold approvalTurn. by eexists _, _.
Defined.
